(** * paperspace-node: workspace packaging and state polling

    A shallow embedding of [lib/jobs/create.js] (home-directory expansion,
    directory size walk, archive construction, upload size gate) and of
    [lib/machines/waitfor.js] (the machine state poller), followed by the
    properties established about them.

    Conventions.
    - JavaScript strings are [string]s; every character the code tests
      ("/", "~", ".", ASCII letters) is a single byte, so prefix, suffix and
      equality tests agree with the UTF-16 ones.
    - [undefined] is [None]; a thrown exception is the [Throws] result.
    - Byte sizes are [Z]; the code adds them as JavaScript numbers, which are
      exact below 2^53.
    - The [path] module is the POSIX flavour of Node's.
    - [create] and [waitfor] are asynchronous: a run is the list of the
      effects it has, in order, given what the disk, the archiver and the
      server answer. *)

From Stdlib Require Import ZArith List String Ascii Bool Lia Permutation.
From Stdlib Require Import DecimalString.
Import ListNotations.
Open Scope string_scope.
Open Scope Z_scope.

Set Warnings "-register-all".

(* ================================================================== *)
(** ** JavaScript values and string primitives *)

Module JS.

(** Result of evaluating an expression that may throw. *)
Inductive res (A : Type) : Type :=
| Ret (a : A)
| Throws (msg : string).
Arguments Ret {A} a.
Arguments Throws {A} msg.

Definition chars (s : string) : list ascii := list_ascii_of_string s.
Definition str (l : list ascii) : string := string_of_list_ascii l.

(** [s.startsWith(p)] *)
Definition startsWith (s p : string) : bool := String.prefix p s.

(** [s.endsWith(p)] *)
Definition endsWith (s p : string) : bool :=
  String.prefix (str (rev (chars p))) (str (rev (chars s))).

(** [s.slice(0, 2)] *)
Definition slice_0_2 (s : string) : string := substring 0 2 s.

(** [s.slice(2)] *)
Definition slice_2 (s : string) : string :=
  substring 2 (String.length s - 2) s.

(** One character of [String.prototype.toLowerCase]: the letters A-Z are
    mapped to a-z, every other byte is kept.  A code point outside ASCII
    never lower-cases to one of the letters of "ready", "serviceready" or
    "off", so the byte-wise map decides the poller's [switch] as the
    Unicode one does. *)
Definition lower_char (c : ascii) : ascii :=
  let n := nat_of_ascii c in
  if (Nat.leb 65 n && Nat.leb n 90)%bool then ascii_of_nat (n + 32) else c.

Fixpoint toLowerCase (s : string) : string :=
  match s with
  | EmptyString => EmptyString
  | String c r => String (lower_char c) (toLowerCase r)
  end.

End JS.

(* ================================================================== *)
(** ** Node's [path] module (POSIX) *)

Module Path.

Definition is_sep (c : ascii) : bool := Ascii.eqb c "/".

Fixpoint dropWhile {A} (f : A -> bool) (l : list A) : list A :=
  match l with
  | [] => []
  | x :: r => if f x then dropWhile f r else l
  end.

Fixpoint takeWhile {A} (f : A -> bool) (l : list A) : list A :=
  match l with
  | [] => []
  | x :: r => if f x then x :: takeWhile f r else []
  end.

(** [path.basename(p)]: scanning from the end, trailing separators are
    skipped and the characters up to the next separator are kept. *)
Definition basename (p : string) : string :=
  let back := dropWhile is_sep (rev (JS.chars p)) in
  JS.str (rev (takeWhile (fun c => negb (is_sep c)) back)).

(** Segments of a path between separators (empty segments included). *)
Fixpoint split_aux (cur : list ascii) (l : list ascii) : list string :=
  match l with
  | [] => [JS.str (rev cur)]
  | c :: r => if is_sep c then JS.str (rev cur) :: split_aux [] r
              else split_aux (c :: cur) r
  end.

Definition split (p : string) : list string := split_aux [] (JS.chars p).

(** [normalizeString]: empty and "." segments vanish, ".." removes the
    segment before it unless there is none or it is ".." itself, in which
    case it is kept only when the path may climb above its start.  [acc]
    holds the kept segments, last first. *)
Fixpoint normalize_segs (allowAboveRoot : bool) (acc segs : list string)
  : list string :=
  match segs with
  | [] => rev acc
  | s :: r =>
      if (String.eqb s EmptyString || String.eqb s ".")%bool
      then normalize_segs allowAboveRoot acc r
      else if String.eqb s ".."
      then match acc with
           | top :: below =>
               if String.eqb top ".."
               then normalize_segs allowAboveRoot
                      (if allowAboveRoot then ".." :: acc else acc) r
               else normalize_segs allowAboveRoot below r
           | [] =>
               normalize_segs allowAboveRoot
                 (if allowAboveRoot then [".."] else []) r
           end
      else normalize_segs allowAboveRoot (s :: acc) r
  end.

Definition normalizeString (p : string) (allowAboveRoot : bool) : string :=
  String.concat "/" (normalize_segs allowAboveRoot [] (split p)).

Definition isAbsolute (p : string) : bool := JS.startsWith p "/".

(** [path.normalize(p)] *)
Definition normalize (p : string) : string :=
  if String.eqb p EmptyString then "."
  else
    let abs := isAbsolute p in
    let trailing := JS.endsWith p "/" in
    let body := normalizeString p (negb abs) in
    if String.eqb body EmptyString
    then (if abs then "/" else if trailing then "./" else ".")
    else
      let body := if trailing then body ++ "/" else body in
      if abs then "/" ++ body else body.

(** [path.join(a, b)] *)
Definition join (a b : string) : string :=
  match String.eqb a EmptyString, String.eqb b EmptyString with
  | true, true => "."
  | true, false => normalize b
  | false, true => normalize a
  | false, false => normalize (a ++ "/" ++ b)
  end.

(** [path.resolve(a, b)] with the process working directory [cwd]:
    arguments are prefixed right to left until the path is absolute. *)
Definition resolve (cwd a b : string) : string :=
  let p :=
    if isAbsolute b then b
    else if isAbsolute a then a ++ "/" ++ b
    else cwd ++ "/" ++ a ++ "/" ++ b in
  "/" ++ normalizeString p false.

End Path.

(* ================================================================== *)
(** ** Glob patterns as [archive.glob] reads them

    The matcher of the [minimatch] library, restricted to patterns whose
    parts are [**], [*] or a literal name, with the [dot: true] option the
    code passes (and [glob] always uses for [ignore] patterns). *)

Module Minimatch.

Inductive part : Type :=
| GlobStar
| Star
| Lit (name : string).

Definition parse_part (s : string) : part :=
  if String.eqb s "**" then GlobStar
  else if String.eqb s "*" then Star
  else Lit s.

Definition parse (pattern : string) : list part :=
  map parse_part (Path.split pattern).

Definition dot_dir (f : string) : bool :=
  (String.eqb f "." || String.eqb f "..")%bool.

Definition match_part (p : part) (f : string) : bool :=
  match p with
  | Lit name => String.eqb f name
  | Star => (negb (String.eqb f EmptyString) && negb (dot_dir f))%bool
  | GlobStar => false
  end.

(** [matchOne(file, pattern)]: a final [**] swallows the rest of a path
    that has a rest; any other [**] swallows zero or more parts. *)
Fixpoint matchOne (pattern : list part) (file : list string) : bool :=
  match pattern with
  | [] =>
      match file with
      | [] => true
      | [f] => String.eqb f EmptyString
      | _ => false
      end
  | GlobStar :: rest =>
      match rest with
      | [] =>
          match file with
          | [] => false
          | _ => forallb (fun f => negb (dot_dir f)) file
          end
      | _ =>
          (fix swallow (fs : list string) : bool :=
             (matchOne rest fs
              || match fs with
                 | [] => false
                 | f :: fs' => if dot_dir f then false else swallow fs'
                 end)%bool) file
      end
  | p :: rest =>
      match file with
      | [] => false
      | f :: fs => (match_part p f && matchOne rest fs)%bool
      end
  end.

Definition minimatch (pattern : string) (file : list string) : bool :=
  matchOne (parse pattern) file.

(** [glob]'s [ignoreMap]: a pattern ending in [/**] also ignores the
    directory itself. *)
Definition strip_globstars (pattern : string) : option string :=
  if JS.endsWith pattern "/**"
  then Some (String.concat "/"
               (rev (Path.dropWhile (fun s => String.eqb s "**")
                       (rev (Path.split pattern)))))
  else None.

(** [glob]'s [isIgnored] *)
Definition isIgnored (ignore : list string) (file : list string) : bool :=
  existsb (fun pattern =>
             (minimatch pattern file
              || match strip_globstars pattern with
                 | Some g => minimatch g file
                 | None => false
                 end)%bool) ignore.

(** The matches of [glob(pattern, { ignore: ignore, dot: true })] among
    the paths [files] found below the working directory. *)
Definition glob (pattern : string) (ignore : list string)
           (files : list (list string)) : list (list string) :=
  filter (fun f => (minimatch pattern f && negb (isIgnored ignore f))%bool)
         files.

End Minimatch.

(* ================================================================== *)
(** ** [lib/jobs/create.js] *)

Module Create.

Import JS.

(** The part of [process] the code reads. *)
Record process := {
  platform : string;
  env : string -> option string;
  cwd : string;
}.

(** [expandHomeDir(pathIn)] *)
Definition expandHomeDir (proc : process) (pathIn : option string)
  : res (option string) :=
  let homedir :=
    env proc (if String.eqb (platform proc) "win32"
              then "USERPROFILE" else "HOME") in
  match pathIn with
  | None => Ret pathIn
  | Some p =>
      if String.eqb p EmptyString then Ret pathIn
      else if String.eqb p "~" then Ret homedir
      else if negb (String.eqb (slice_0_2 p) "~/") then Ret pathIn
      else match homedir with
           | Some h => Ret (Some (Path.join h (slice_2 p)))
           | None =>
               Throws "TypeError: path must be a string"
           end
  end.

(** *** The workspace on disk

    What [fs.stat] and [fs.readdir] show of the tree below a path.  Every
    entry carries its base name and the [size] its [stat] reports (a
    directory has one too).  [Vanished] is an entry that is listed but whose
    [fs.stat] fails; [Sealed] is a directory whose [fs.readdir] fails. *)
Inductive entry : Type :=
| File (name : string) (size : Z)
| Dir (name : string) (size : Z) (children : list entry)
| Vanished (name : string)
| Sealed (name : string) (size : Z).

Definition entry_name (e : entry) : string :=
  match e with
  | File n _ | Dir n _ _ | Vanished n | Sealed n _ => n
  end.

(** What [directorySize] hands to its callback: [cb(null, size)] or
    [cb(err, ...)].  The second argument that accompanies an error is
    missing, a partial sum or [NaN], depending on which [fs] call failed and
    on the completion order of the others; it is not kept, and where the
    code reads it all the same (the total of the progress bar) it is
    [None]. *)
Inductive walk_result : Type :=
| Size (n : Z)
| IOError.

(** The test of lines 101-102 on [path.basename(_path)]. *)
Definition excluded (name : string) : bool :=
  (String.eqb name ".git" || String.eqb name ".gitignore")%bool.

(** [async.map(paths, directorySize, ...)]: the list of sizes, or the
    error of an iteratee. *)
Fixpoint async_map_sizes (rs : list walk_result) : option (list Z) :=
  match rs with
  | [] => Some []
  | Size n :: r => option_map (cons n) (async_map_sizes r)
  | IOError :: _ => None
  end.

(** [sizes.reduce(function(a, b) { return a + b; }, 0)] *)
Definition reduce_add (sizes : list Z) : Z := fold_left Z.add sizes 0.

(** [directorySize(_path, cb, size)] with [size] given. *)
Fixpoint directorySize_from (size : Z) (e : entry) : walk_result :=
  if excluded (entry_name e) then Size size
  else
    match e with
    | Vanished _ => IOError
    | File _ sz => Size (size + sz)
    | Sealed _ _ => IOError
    | Dir _ sz children =>
        match async_map_sizes (map (directorySize_from 0) children) with
        | Some sizes => Size ((size + sz) + reduce_add sizes)
        | None => IOError
        end
    end.

(** [directorySize(_path, cb)]: [size] is [undefined] and starts at 0. *)
Definition directorySize (e : entry) : walk_result := directorySize_from 0 e.

(** The entries on which the walk calls [fs.stat] with success, each with
    its path relative to the root (the root is the empty path) and the
    size it adds. *)
Fixpoint walked (prefix : list string) (e : entry)
  : list (list string * Z) :=
  if excluded (entry_name e) then []
  else
    match e with
    | Vanished _ => []
    | File _ sz => [(prefix, sz)]
    | Sealed _ sz => [(prefix, sz)]
    | Dir _ sz children =>
        (prefix, sz)
          :: flat_map (fun c => walked (prefix ++ [entry_name c])%list c) children
    end.

(** No [fs.stat] or [fs.readdir] issued by the walk fails. *)
Fixpoint readable (e : entry) : bool :=
  (excluded (entry_name e)
   || match e with
      | Vanished _ | Sealed _ _ => false
      | File _ _ => true
      | Dir _ _ children => forallb readable children
      end)%bool.

(** Every path below [e], relative to it, as repeated [readdir] lists
    them. *)
Fixpoint descendants (prefix : list string) (e : entry)
  : list (list string) :=
  match e with
  | Dir _ _ children =>
      flat_map (fun c => (prefix ++ [entry_name c])%list
                           :: descendants (prefix ++ [entry_name c])%list c)
               children
  | _ => []
  end.

(** The same tree with directory listings in another order. *)
Inductive reordered : entry -> entry -> Prop :=
| reordered_refl e : reordered e e
| reordered_dir name sz cs ds ds' :
    Forall2 reordered cs ds ->
    Permutation ds ds' ->
    reordered (Dir name sz cs) (Dir name sz ds').

Definition MAX_UPLOAD_SIZE : Z := 104857600.

(** *** The environment of one [create] call *)

Inductive kind : Type := IsFile | IsDirectory | IsOther.

(** [fs.Stats]: [isFile()], [isDirectory()] and [size]. *)
Record stats := { st_kind : kind; st_size : Z }.

Definition isDirectory (st : stats) : bool :=
  match st_kind st with IsDirectory => true | _ => false end.

Definition isFile (st : stats) : bool :=
  match st_kind st with IsFile => true | _ => false end.

(** An [Error] object: its message and, for system errors, its [code]. *)
Record error := { message : string; code : option string }.

Definition Error (msg : string) : error :=
  {| message := msg; code := None |}.

(** What the archiver and its output stream emit once [finalize] has been
    called.  ['close'] is the last event of the output stream.  After an
    ['error'] the archiver has given up: it emits nothing more and the
    output stream is not closed. *)
Inductive archive_event : Type :=
| EvWarning (err : error)
| EvError (err : error)
| EvProgress (processedBytes : Z)
| EvClose.

Record world := {
  proc : process;
  paperspace_cli : bool;            (* [global.paperspace_cli] *)
  tmpdir : string;                  (* [os.tmpdir()] *)
  stat : string -> option stats;    (* [fs.statSync]; [None]: no such path *)
  tree : string -> entry;           (* the tree [directorySize] walks *)
  emitted : list archive_event;     (* events of the archiving run *)
  zipped : option Z;                (* size of the written archive at 'close' *)
}.

(** The effects of [create] that can be observed from outside. *)
Inductive action : Type :=
| ConsoleLog (text : string)
| ConsoleError (text : string)
| ConsoleErrorObject (label : string) (err : error)
    (* [console.error(label, err)]: the label, then the error object as
       the console shows an object *)
| Unlink (file : string)
    (* [fs.unlinkSync(file)], followed here as if it succeeds: where the
       file cannot be removed the call throws and nothing comes after it *)
| CreateWriteStream (file : string)
| ArchiveGlob (pattern cwd : string) (ignore : list string)
| ArchiveFile (source name : string)
| ArchiveFinalize
| BarNew (label : string) (total : option Z)
| BarTick (chunk : Z)
| Invoke (workspace workspaceFileName : option string)
    (* [method(create, params, _methodCb)]: the remote call, which uploads
       the file named by [params.workspace] when there is one *)
| Callback (err : option error)     (* [cb()] or [cb(err)] *)
| Uncaught (err : error).           (* an exception leaves the handler *)

Definition existsSync (w : world) (p : string) : bool :=
  match stat w p with Some _ => true | None => false end.

Definition decimal (n : Z) : string :=
  DecimalString.NilZero.string_of_int (Z.to_int n).

Section Call.

Variable w : world.
Variable json : bool.             (* [params.json] *)

Definition interactive : bool := (paperspace_cli w && negb json)%bool.

Definition ifCliPrintErrorOnly (err : error) : list action :=
  if interactive then [ConsoleLog (message err); Callback None]
  else [Callback (Some err)].

Definition ignore_list : list string :=
  ["**/.git/**"; "**/.git"; "**/.gitignore"].

(** *** [zipFunc] and its handlers *)
Section Zip.

Variable workspace : string.    (* [params.workspace], expanded *)
Variable st : stats.            (* [stat] of the workspace *)
Variable zip_file : string.
Variable totalSize : option Z.

(** [output.on('close', ...)] *)
Definition on_close : list action :=
  match zipped w with
  | None =>
      [Uncaught {| message := "ENOENT: no such file or directory, stat";
                   code := Some "ENOENT" |}]
  | Some size =>
      if size >? MAX_UPLOAD_SIZE
      then ifCliPrintErrorOnly
             (Error ("Error: zipped workspace " ++ zip_file
                     ++ " cannot exceed " ++ decimal MAX_UPLOAD_SIZE
                     ++ " bytes."))
      else [Invoke (Some zip_file) (Some (Path.basename zip_file))]
  end.

(** The handlers of ['error'], ['warning'], ['progress'] and ['close']
    applied to the events in the order they are emitted.  [bar] tells
    whether the progress bar exists, [prev_zipped] is the variable of
    that name. *)
Fixpoint handle (bar : bool) (prev_zipped : Z)
         (events : list archive_event) : list action :=
  match events with
  | [] => []
  | EvError err :: rest =>
      ConsoleErrorObject "Error while zipping: " err
        :: handle bar prev_zipped rest
  | EvWarning err :: rest =>
      match code err with
      | Some c =>
          if String.eqb c "ENOENT"
          then ConsoleError c :: handle bar prev_zipped rest
          else [Uncaught err]
      | None => [Uncaught err]
      end
  | EvProgress processedBytes :: rest =>
      if (isDirectory st && interactive)%bool
      then
        (if bar then []
         else [BarNew ("Zipping directory " ++ Path.basename workspace
                       ++ " [:bar] :rate/bps :percent :etas")
                      totalSize])
          ++ BarTick (processedBytes - prev_zipped)
          :: handle true processedBytes rest
      else handle bar prev_zipped rest
  | EvClose :: _ => on_close
  end.

Definition zipFunc : list action :=
  CreateWriteStream zip_file
    :: (if isDirectory st
        then ArchiveGlob "**/*" workspace ignore_list
        else ArchiveFile workspace (Path.basename workspace))
    :: ArchiveFinalize
    :: handle false 0 (emitted w).

End Zip.

Definition is_link (workspace : string) : bool :=
  (startsWith workspace "https://"
   || startsWith workspace "git+https://")%bool.

Definition walk_total (r : walk_result) : option Z :=
  match r with Size n => Some n | IOError => None end.

(** [create(params, cb)] from line 256 on, [params.workspace] being the
    non-empty string the defaults have left there. *)
Definition create (workspace : string) : list action :=
  if String.eqb workspace "/"
  then ifCliPrintErrorOnly
         (Error "Error: cannot zip workspace from root directory.")
  else if (negb (String.eqb workspace "none")
           && negb (startsWith workspace "https://")
           && negb (startsWith workspace "git+https://"))%bool
  then
    match expandHomeDir (proc w) (Some workspace) with
    | Throws msg => [Uncaught (Error msg)]
    | Ret None =>
        ifCliPrintErrorOnly
          (Error "Error: cannot find workspace file or directory.")
    | Ret (Some ws) =>
        match stat w ws with
        | None =>
            ifCliPrintErrorOnly
              (Error "Error: cannot find workspace file or directory.")
        | Some st =>
            if (negb (isDirectory st) && negb (isFile st))%bool
            then ifCliPrintErrorOnly
                   (Error "Error: workspace is not a file or directory.")
            else if (negb (endsWith ws ".zip")
                     && negb (endsWith ws ".gz"))%bool
            then
              let zip_file :=
                Path.resolve (cwd (proc w)) (tmpdir w)
                             (Path.basename ws ++ ".zip") in
              (if existsSync w zip_file then [Unlink zip_file] else [])
                ++ (if isDirectory st
                    then zipFunc ws st zip_file
                           (walk_total (directorySize (tree w ws)))
                    else
                      (if interactive
                       then [ConsoleLog ("Zipping file "
                                         ++ Path.basename ws)]
                       else [])
                        ++ zipFunc ws st zip_file (Some (st_size st)))
            else
              if st_size st >? MAX_UPLOAD_SIZE
              then ifCliPrintErrorOnly
                     (Error ("Error: zipped workspace " ++ ws
                             ++ " cannot exceed "
                             ++ decimal MAX_UPLOAD_SIZE ++ " bytes."))
              else [Invoke (Some ws) (Some (Path.basename ws))]
        end
    end
  else
    [Invoke None (if is_link workspace then Some workspace else None)].

End Call.

(** The names of the entries a request to the archiver adds, for the
    workspace tree [t]: the matches of the glob, or the one name given. *)
Definition entries_of (t : entry) (a : action) : list string :=
  match a with
  | ArchiveGlob pattern _ ignore =>
      map (String.concat "/")
          (Minimatch.glob pattern ignore (descendants [] t))
  | ArchiveFile _ name => [name]
  | _ => []
  end.

End Create.

(* ================================================================== *)
(** ** [lib/machines/waitfor.js] *)

Module Waitfor.

Import JS.

Definition INTERVAL : Z := 5000. (* ms *)

(** The machine JSON object; the poller reads its [state] only. *)
Record machine := { id : string; state : option string }.

(** What [method(waitfor, params, _cb)] calls back with: [_cb(err)] or
    [_cb(null, machine)]. *)
Inductive response : Type :=
| Failure (err : Create.error)
| Success (m : option machine).

Inductive event : Type :=
| Query                                       (* [method(waitfor, ...)] *)
| SetTimeout (ms : Z)                         (* [setTimeout(_interval, ms)] *)
| Cb (err : option Create.error) (res : option machine).

(** Lines 111-124: the outcome of the checks on [params.state], which the
    [requires] table declares a string. *)
Inductive checked : Type :=
| Rejected (err : Create.error)
| Target (targetState : string).

Definition check (state : option string) : checked :=
  match state with
  | None => Rejected (Create.Error "Missing required parameter state")
  | Some v =>
      if String.eqb v EmptyString
      then Rejected (Create.Error "Missing required parameter state")
      else
        let state := toLowerCase v in
        if (String.eqb state "ready" || String.eqb state "serviceready"
            || String.eqb state "off")%bool
        then Target state
        else Rejected (Create.Error
                         "state must be either off, serviceready, or ready")
  end.

(** [machine && machine.state === targetState] *)
Definition reached (m : option machine) (targetState : string) : bool :=
  match m with
  | Some r =>
      match state r with
      | Some s => String.eqb s targetState
      | None => false
      end
  | None => false
  end.

(** [waitfor(params, cb)] against a server whose successive answers are
    [responses]; when they run out the last query stays unanswered. *)
Fixpoint waitfor (state : option string) (responses : list response)
  : list event :=
  match check state with
  | Rejected err => [Cb (Some err) None]
  | Target targetState =>
      Query
        :: match responses with
           | [] => []
           | Failure err :: _ => [Cb (Some err) None]
           | Success m :: rest =>
               if reached m targetState then [Cb None m]
               else SetTimeout INTERVAL :: waitfor state rest
           end
  end.

(** Number of queries sent to the server. *)
Definition queries (trace : list event) : nat :=
  List.length (filter (fun e => match e with Query => true | _ => false end)
                      trace).

(** Equality of two state names without regard to letter case. *)
Definition equal_ignoring_case (s d : string) : bool :=
  String.eqb (toLowerCase s) (toLowerCase d).

End Waitfor.

(* ================================================================== *)
(** ** Vocabulary of the statements *)

Module Vocabulary.

Import JS Create.

Definition sumZ (l : list Z) : Z := fold_right Z.add 0 l.

(** The total of the sizes of the regular files below an entry whose
    names are not excluded, nothing below an excluded name being counted:
    the figure the specification gives for the size computation. *)
Fixpoint files_total (e : entry) : Z :=
  if excluded (entry_name e) then 0
  else
    match e with
    | File _ sz => sz
    | Dir _ _ children => sumZ (map files_total children)
    | _ => 0
    end.

(** Induction on entries that reaches the children of a directory. *)
Section EntryInduction.

Variable P : entry -> Prop.
Hypothesis HFile : forall name sz, P (File name sz).
Hypothesis HDir :
  forall name sz children, Forall P children -> P (Dir name sz children).
Hypothesis HVanished : forall name, P (Vanished name).
Hypothesis HSealed : forall name sz, P (Sealed name sz).

Fixpoint entry_induction (e : entry) : P e :=
  match e with
  | File name sz => HFile name sz
  | Dir name sz children =>
      HDir name sz children
           ((fix all (l : list entry) : Forall P l :=
               match l with
               | [] => Forall_nil P
               | c :: r => Forall_cons c (entry_induction c) (all r)
               end) children)
  | Vanished name => HVanished name
  | Sealed name sz => HSealed name sz
  end.

End EntryInduction.

(** Some remote call is made. *)
Definition invokes (trace : list action) : Prop :=
  exists f n, In (Invoke f n) trace.

(** The output stream gets to emit ['close']: no warning other than
    [ENOENT] comes first. *)
Fixpoint closes (events : list archive_event) : bool :=
  match events with
  | [] => false
  | EvClose :: _ => true
  | EvWarning err :: rest =>
      match code err with
      | Some c => if String.eqb c "ENOENT" then closes rest else false
      | None => false
      end
  | _ :: rest => closes rest
  end.

(** The path of the archive [create] builds for the workspace [ws]. *)
Definition zip_path (w : world) (ws : string) : string :=
  Path.resolve (cwd (proc w)) (tmpdir w) (Path.basename ws ++ ".zip").

(** A workspace that is neither the root, nor "none", nor a link. *)
Definition local_path (workspace : string) : Prop :=
  workspace <> "/" /\ workspace <> "none"
  /\ startsWith workspace "https://" = false
  /\ startsWith workspace "git+https://" = false.

Definition is_archive (ws : string) : bool :=
  (endsWith ws ".zip" || endsWith ws ".gz")%bool.

(** *** Sample inputs *)

Definition proc_linux : process :=
  {| platform := "linux";
     env := fun k => if String.eqb k "HOME" then Some "/home/u" else None;
     cwd := "/work" |}.

(** The requests [create] makes to the archiver. *)
Definition archive_requests (trace : list action) : list action :=
  filter (fun a => match a with
                   | ArchiveGlob _ _ _ | ArchiveFile _ _ => true
                   | _ => false
                   end) trace.

(** The error of the size gate for the file [f]. *)
Definition size_error (f : string) : error :=
  Error ("Error: zipped workspace " ++ f ++ " cannot exceed "
         ++ decimal MAX_UPLOAD_SIZE ++ " bytes.").

Definition project_tree : entry :=
  Dir "proj" 4096
      [File "a" 10; File "b" 20; File ".gitignore" 1000;
       Dir ".git" 4096 [File "config" 5]].

Definition project_tree_shuffled : entry :=
  Dir "proj" 4096
      [Dir ".git" 4096 [File "config" 5]; File ".gitignore" 1000;
       File "b" 20; File "a" 10].

(** A disk with the archive [/data/ws.zip] of [archive_size] bytes, the
    file [/data/notes.txt] and the directory [/data/proj]; the archiving
    run emits [events] and leaves an archive of [built] bytes. *)
Definition sample_world (archive_size : Z) (events : list archive_event)
           (built : option Z) : world :=
  {| proc := proc_linux;
     paperspace_cli := false;
     tmpdir := "/tmp";
     stat := fun p =>
               if String.eqb p "/data/ws.zip"
               then Some {| st_kind := IsFile; st_size := archive_size |}
               else if String.eqb p "/data/notes.txt"
               then Some {| st_kind := IsFile; st_size := 500 |}
               else if String.eqb p "/data/proj"
               then Some {| st_kind := IsDirectory; st_size := 4096 |}
               else None;
     tree := fun _ => project_tree;
     emitted := events;
     zipped := built |}.

(** A project that holds a directory named [.gitignore]. *)
Definition gitignore_directory_tree : entry :=
  Dir "proj" 4096 [File "main.py" 10; Dir ".gitignore" 4096 [File "x" 7]].

(** A name a directory listing can hold. *)
Definition proper (s : string) : Prop :=
  s <> EmptyString /\ Minimatch.dot_dir s = false.

(** A name at which the walk does not stop. *)
Definition kept (s : string) : Prop := excluded s = false.

(** The states [waitfor] accepts. *)
Definition legal_states : list string := ["off"; "serviceready"; "ready"].

Definition gone : error :=
  {| message := "ENOENT: no such file or directory"; code := Some "ENOENT" |}.

End Vocabulary.

(* ================================================================== *)
(** ** [lib/project/init.js] and the project configuration file *)

Module Project.

Import JS Create.

(** What [init], and [create] before it reaches the workspace, do. *)
Inductive step : Type :=
| Act (a : action)
| Mkdirp (dir : string)
    (* [mkdirp.sync(dir)] *)
| WriteConfig (file project : string)
    (* [fs.writeFileSync(file,
          JSON.stringify({ project: project }, null, 2) + '\n')] *)
| SetConfig (key : string) (project : option string) (value : string)
    (* [projectConfig.set<Key>(project, value)] *)
| Result (project : string).
    (* [cb(null, config)] with [config.project = project] *)

(** The synchronous calls that change the disk may throw. *)
Record faults := {
  mkdirp_fails : option error;
  write_fails : option error;
}.

(** A stretch of code that either returns from the function after some
    steps, or goes on after some steps with a value. *)
Inductive outcome (A : Type) : Type :=
| Stop (steps : list step)
| Go (steps : list step) (value : A).
Arguments Stop {A} steps.
Arguments Go {A} steps value.

(** Truthiness of a value that is a string or nothing. *)
Definition truthy (s : option string) : bool :=
  match s with
  | None => false
  | Some v => negb (String.eqb v EmptyString)
  end.

Section Config.

Variable w : world.
Variable d : faults.

(** [path.resolve(cwd, '.ps_project')] *)
Definition configDir : string :=
  Path.resolve (cwd (proc w)) (cwd (proc w)) ".ps_project".

(** [path.resolve(configDir, 'config.json')] *)
Definition configFileName : string :=
  Path.resolve (cwd (proc w)) configDir "config.json".

(** Lines 90-101 of [project_init.js.html], which are lines 169-180 of
    [create.js]:
    the directory is made when missing, the file written unless something
    else than a directory or a file is in the way; [report] is the
    [ifCliPrintErrorOnly] of the function around. *)
Definition write_config (report : error -> list step) (project : string)
  : outcome unit :=
  let write (before : list step) : outcome unit :=
    match write_fails d with
    | Some e => Stop (before ++ [Act (Uncaught e)])
    | None => Go (before ++ [WriteConfig configFileName project]) tt
    end in
  let file (before : list step) : outcome unit :=
    match stat w configFileName with
    | Some st =>
        if negb (isFile st)
        then Stop (before
                     ++ report (Error ("Error: config file not accessible: "
                                       ++ configFileName)))
        else write before
    | None => write before
    end in
  match stat w configDir with
  | None =>
      match mkdirp_fails d with
      | Some e => Stop [Act (Uncaught e)]
      | None => file [Mkdirp configDir]
      end
  | Some st =>
      if negb (isDirectory st)
      then Stop (report
                   (Error "Error: existing file with same name as .ps_project directory."))
      else file []
  end.

(** The [ifCliPrintErrorOnly] of [init], which does not look at [json]. *)
Definition init_report (err : error) : list step :=
  if paperspace_cli w then [Act (ConsoleLog (message err)); Act (Callback None)]
  else [Act (Callback (Some err))].

(** The name of the project of [init]: [params.name], or the base name of
    the working directory when it is missing or empty. *)
Definition project_name (name : option string) : string :=
  match name with
  | Some v => if String.eqb v EmptyString
              then Path.basename (cwd (proc w)) else v
  | None => Path.basename (cwd (proc w))
  end.

(** How [init] ends when the file is written. *)
Definition init_done (project : string) : list step :=
  if paperspace_cli w
  then [Act (ConsoleLog ("Project name: " ++ project)); Act (Callback None)]
  else [Result project].

(** [init(params, cb)], [name] being [params.name]. *)
Definition init (name : option string) : list step :=
  let given := truthy name in
  let name' := project_name name in
  if (negb given && String.eqb name' "/")%bool
  then init_report
         (Error "Error: cannot create project from root dir. Please create a project dir and run from there, or use the --name option.")
  else
    match write_config init_report name' with
    | Stop steps => steps
    | Go steps _ => (steps ++ init_done name')%list
    end.

End Config.

End Project.

(* ================================================================== *)
(** ** [lib/jobs/create.js]: before and after the workspace *)

Module Job.

Import JS Create Project.

(** A parameter as the caller may give it. *)
Inductive value : Type :=
| Undefined
| Bool (b : bool)
| Str (s : string).

Definition truthy_value (v : value) : bool :=
  match v with
  | Undefined => false
  | Bool b => b
  | Str s => negb (String.eqb s EmptyString)
  end.

(** [typeof v !== 'string'] *)
Definition not_a_string (v : value) : bool :=
  match v with Str _ => false | _ => true end.

(** The value as a string or nothing, once it is known to be one. *)
Definition as_string (v : value) : option string :=
  match v with Str s => Some s | _ => None end.

(** [params] *)
Record params := {
  p_json : value;
  p_init : value;
  p_tail : value;
  p_project : option string;
  p_projectId : option string;
  p_container : value;
  p_workspace : value;
  p_machineType : option string;
  p_command : option string;
  p_name : option string;
  p_dataset : option string;
}.

(** What [projectConfig] answers; [getProject_again] is the answer of
    [getProject()] once the configuration file has been written. *)
Record config := {
  getProject : option string;
  getProject_again : option string;
  getMachineType : option string;
  getContainer : option string;
  getCommand : option string;
  getWorkspace : option string;
  getName : option string;
  getDataset : option string;
}.

(** What lines 137-213 leave for the rest of [create]: the variables
    [json] and [tail], the parameters they have settled, and what is left in
    [params] of the three keys the flags are read from, which is handed to
    the remote call with the rest. *)
Record prepared := {
  json : bool;
  tail : bool;
  json_param : value;
  init_param : value;
  tail_param : value;
  project : option string;
  container : string;
  workspace : string;
  machineType : option string;
  command : option string;
  name : option string;
  dataset : option string;
}.

(** [String(v)] for a value that is a string or [undefined]. *)
Definition shown (s : option string) : string :=
  match s with Some v => v | None => "undefined" end.

Section Prepare.

Variable w : world.
Variable d : faults.
Variable c : config.

(** Lines 137-141 *)
Definition json_of (p : params) : bool := truthy_value (p_json p).

(** Lines 142-146: [init] is [true], or [params.init] when that is
    truthy. *)
Definition init_of (p : params) : value :=
  if truthy_value (p_init p) then p_init p else Bool true.

(** Lines 147-151 *)
Definition tail_of (p : params) : bool :=
  match p_tail p with
  | Bool b => b
  | _ => (paperspace_cli w && negb (json_of p))%bool
  end.

(** Line 145: [params.init] is deleted when it is truthy, and stays
    otherwise. *)
Definition init_left (p : params) : value :=
  if truthy_value (p_init p) then Undefined else p_init p.

(** Line 150: [params.tail] is deleted when it is a boolean, and stays
    otherwise. *)
Definition tail_left (p : params) : value :=
  match p_tail p with
  | Bool _ => Undefined
  | v => v
  end.

(** The [ifCliPrintErrorOnly] of [create], on steps. *)
Definition report (p : params) (err : error) : list step :=
  map Act (ifCliPrintErrorOnly w (json_of p) err).

(** Lines 159-188: the project of the job. *)
Definition project_of (p : params) : outcome (option string) :=
  if (negb (truthy (p_project p)) && negb (truthy (p_projectId p)))%bool
  then
    if truthy (getProject c) then Go [] (getProject c)
    else
      let dir := Path.basename (cwd (proc w)) in
      if String.eqb dir "/"
      then Stop (report p
                   (Error "Error: cannot create project from root dir. Please create a project dir and run from there."))
      else if (paperspace_cli w && negb (json_of p)
               && truthy_value (init_of p))%bool
      then
        match write_config w d (report p) dir with
        | Stop steps => Stop steps
        | Go steps _ =>
            Go (steps
                  ++ [Act (ConsoleLog ("New project name: "
                                       ++ shown (getProject_again c)))])
               (getProject_again c)
        end
      else Go [] (Some dir)
  else Go [] (p_project p).

(** One of lines 193-209: a parameter that is given is stored, one that is
    not is read from the store. *)
Definition stored (key : string) (proj given kept : option string)
  : list step * option string :=
  if truthy given
  then ([SetConfig key proj
                   (match given with Some v => v | None => EmptyString end)],
        given)
  else ([], kept).

(** Lines 137-213 *)
Definition prepare (p : params) : outcome prepared :=
  match project_of p with
  | Stop steps => Stop steps
  | Go steps0 proj =>
      if (truthy_value (p_container p) && not_a_string (p_container p))%bool
      then Stop (steps0
                   ++ report p
                        (Error "Parameter `container` expected to be a string"))
      else if (truthy_value (p_workspace p)
               && not_a_string (p_workspace p))%bool
      then Stop (steps0
                   ++ report p
                        (Error "Parameter `workspace` expected to be a string"))
      else
        let (s1, mt) := stored "machineType" proj (p_machineType p)
                               (getMachineType c) in
        let (s2, ct) := stored "container" proj (as_string (p_container p))
                               (getContainer c) in
        let (s3, cm) := stored "command" proj (p_command p) (getCommand c) in
        let (s4, ws) := stored "workspace" proj (as_string (p_workspace p))
                               (getWorkspace c) in
        let (s5, nm) := stored "name" proj (p_name p) (getName c) in
        let (s6, ds) := stored "dataset" proj (p_dataset p) (getDataset c) in
        let steps := (steps0 ++ s1 ++ s2 ++ s3 ++ s4 ++ s5 ++ s6)%list in
        match ct with
        | Some ct' =>
            if String.eqb ct' EmptyString
            then Stop (steps
                         ++ report p
                              (Error "Missing required parameter `container`"))
            else
              Go steps
                 {| json := json_of p;
                    tail := tail_of p;
                    json_param := p_json p;
                    init_param := init_left p;
                    tail_param := tail_left p;
                    project := proj;
                    container := ct';
                    workspace := if truthy ws
                                 then match ws with
                                      | Some v => v
                                      | None => EmptyString
                                      end
                                 else cwd (proc w);
                    machineType := mt;
                    command := cm;
                    name := nm;
                    dataset := ds |}
        | None =>
            Stop (steps
                    ++ report p
                         (Error "Missing required parameter `container`"))
        end
  end.

(** [create(params, cb)] up to the remote call: lines 137-213 and then the
    workspace. *)
Definition create_steps (p : params) : list step :=
  match prepare p with
  | Stop steps => steps
  | Go steps r => (steps ++ map Act (create w (json r) (workspace r)))%list
  end.

End Prepare.

(** *** After the remote call *)

(** A field of a JSON object from the server. *)
Inductive field (A : Type) : Type :=
| Missing
| Null
| Has (a : A).
Arguments Missing {A}.
Arguments Null {A}.
Arguments Has {A} a.

(** The job object; the fields [create] reads. *)
Record job := {
  job_id : field string;
  job_state : field string;
  job_project : field string;
  jobError : field string;
  exitCode : field Z;
}.

Definition truthy_field (f : field string) : bool :=
  match f with
  | Has s => negb (String.eqb s EmptyString)
  | _ => false
  end.

(** ['' + f] *)
Definition text_of (f : field string) : string :=
  match f with
  | Missing => "undefined"
  | Null => "null"
  | Has s => s
  end.

(** [f === s] *)
Definition is_text (f : field string) (s : string) : bool :=
  match f with
  | Has v => String.eqb v s
  | _ => false
  end.

(** What comes back from a call through [method]. *)
Inductive reply (A : Type) : Type :=
| Fails (err : error)
| Replies (a : A).
Arguments Fails {A} err.
Arguments Replies {A} a.

(** The answers of the server to the calls that follow the creation. *)
Record server := {
  waitfor_reply : reply job;        (* [jobs_waitfor] *)
  logs_reply : option error;        (* [jobs_logs]: an error or nothing *)
  show_reply : reply job;           (* [jobs_show] *)
}.

Inductive event : Type :=
| Say (text : string)                                  (* [console.log] *)
| SetLastJobId (project id : field string)
| Waitfor (jobId state : string)                       (* [jobs_waitfor] *)
| Logs (jobId : string)                                (* [jobs_logs], tail *)
| Show (jobId : string)                                (* [jobs_show] *)
| Done (err : option error) (res : option job)         (* [cb(err, res)] *)
| Raise (msg : string).                                (* a [TypeError] *)

Section Tail.

Variable cli : bool.                (* [global.paperspace_cli] *)
Variable json : bool.
Variable tail : bool.
Variable s : server.

(** [if (res.state === 'Error' || res.jobError) console.log(...)] *)
Definition say_error (r : job) : list event :=
  if (is_text (job_state r) "Error" || truthy_field (jobError r))%bool
  then [Say ("Error: " ++ text_of (jobError r))]
  else [].

(** [_showCb] *)
Definition showCb (rep : reply job) : list event :=
  match rep with
  | Fails err => [Done (Some err) None]
  | Replies r =>
      if negb (truthy_field (job_state r)) then []
      else
        (Say ("Job " ++ text_of (job_state r)
              ++ match exitCode r with
                 | Has n => ", exitCode " ++ decimal n
                 | _ => EmptyString
                 end)
           :: say_error r ++ [Done None None])%list
  end.

(** [_logsCb] *)
Definition logsCb (jobId : string) (err : option error) : list event :=
  match err with
  | Some e => [Done (Some e) None]
  | None => Show jobId :: showCb (show_reply s)
  end.

(** [_waitforCb] *)
Definition waitforCb (jobId : string) (rep : reply job) : list event :=
  match rep with
  | Fails err => [Done (Some err) None]
  | Replies r =>
      if negb (truthy_field (job_state r)) then []
      else
        Say ("Job " ++ text_of (job_state r))
          :: if (negb (is_text (job_state r) "Stopped")
                 && negb (is_text (job_state r) "Failed")
                 && negb (is_text (job_state r) "Running"))%bool
             then (say_error r ++ [Done None None])%list
             else Say "Awaiting logs..."
                    :: Logs jobId :: logsCb jobId (logs_reply s)
  end.

(** [maybeTailLogs(err, res)] *)
Definition maybeTailLogs (err : option error) (res : option job)
  : list event :=
  if (cli && negb json && tail)%bool
  then
    match err with
    | Some e => [Done (Some e) None]
    | None =>
        match res with
        | None => [Raise "TypeError: Cannot read property 'id' of undefined"]
        | Some r =>
            match job_id r with
            | Has jobId =>
                if String.eqb jobId EmptyString then []
                else
                  (Say ("New jobId: " ++ jobId)
                     :: Say ("Job " ++ text_of (job_state r))
                     :: (if is_text (job_state r) "Pending"
                         then [Say "Waiting for job to run..."] else [])
                     ++ Waitfor jobId "Running"
                     :: waitforCb jobId (waitfor_reply s))%list
            | _ => []
            end
        end
    end
  else [Done err res].

(** [_methodCb(err, res)], the callback of the remote call. *)
Definition methodCb (rep : reply (option job)) : list event :=
  match rep with
  | Fails err => [Done (Some err) None]
  | Replies res =>
      (match res with
       | Some r => [SetLastJobId (job_project r) (job_id r)]
       | None => []
       end ++ maybeTailLogs None res)%list
  end.

End Tail.

End Job.

(* ================================================================== *)
(** ** Further vocabulary *)

Module Notions.

Import JS Create Waitfor Vocabulary Project.

(** A step that changes the disk. *)
Definition changes_disk (s : step) : bool :=
  match s with
  | Mkdirp _ | WriteConfig _ _ => true
  | Act (Unlink _) | Act (CreateWriteStream _) => true
  | _ => false
  end.

(** A step that reports the message [msg], on the console or as an error
    handed to the callback. *)
Definition says (msg : string) (s : step) : Prop :=
  s = Act (ConsoleLog msg)
  \/ exists c, s = Act (Callback (Some {| message := msg; code := c |})).

(** A step that calls the callback. *)
Definition calls_back (s : step) : bool :=
  match s with
  | Act (Callback _) | Result _ => true
  | _ => false
  end.

(** The message of the guard against the root directory, in [init]. *)
Definition init_root_message : string :=
  "Error: cannot create project from root dir. Please create a project dir and run from there, or use the --name option.".

(** The steps of an outcome, however it ends. *)
Definition steps_of {A} (o : outcome A) : list step :=
  match o with
  | Stop steps => steps
  | Go steps _ => steps
  end.

(** The message of the guard against the root directory, in [create]. *)
Definition create_root_message : string :=
  "Error: cannot create project from root dir. Please create a project dir and run from there.".

(** [params] with another value for [init]. *)
Definition with_init (p : Job.params) (v : Job.value) : Job.params :=
  {| Job.p_json := Job.p_json p;
     Job.p_init := v;
     Job.p_tail := Job.p_tail p;
     Job.p_project := Job.p_project p;
     Job.p_projectId := Job.p_projectId p;
     Job.p_container := Job.p_container p;
     Job.p_workspace := Job.p_workspace p;
     Job.p_machineType := Job.p_machineType p;
     Job.p_command := Job.p_command p;
     Job.p_name := Job.p_name p;
     Job.p_dataset := Job.p_dataset p |}.

(** The values [create] goes on with, [params.init] being [v]. *)
Definition with_init_param (v : Job.value) (r : Job.prepared) : Job.prepared :=
  {| Job.json := Job.json r;
     Job.tail := Job.tail r;
     Job.json_param := Job.json_param r;
     Job.init_param := v;
     Job.tail_param := Job.tail_param r;
     Job.project := Job.project r;
     Job.container := Job.container r;
     Job.workspace := Job.workspace r;
     Job.machineType := Job.machineType r;
     Job.command := Job.command r;
     Job.name := Job.name r;
     Job.dataset := Job.dataset r |}.

(** The container the job is created with: the parameter when it is a
    non-empty string, what the project configuration holds otherwise. *)
Definition container_of (c : Job.config) (p : Job.params) : option string :=
  if truthy (Job.as_string (Job.p_container p))
  then Job.as_string (Job.p_container p)
  else Job.getContainer c.

(** An event that ends what follows the remote call. *)
Definition final (e : Job.event) : bool :=
  match e with
  | Job.Done _ _ | Job.Raise _ => true
  | _ => false
  end.

(** At most one final event, and nothing after it. *)
Fixpoint finishes_once (trace : list Job.event) : bool :=
  match trace with
  | [] => true
  | e :: rest =>
      if final e then match rest with [] => true | _ => false end
      else finishes_once rest
  end.

(** A state in which a job has logs to show. *)
Definition live (r : Job.job) : bool :=
  (Job.is_text (Job.job_state r) "Stopped"
   || Job.is_text (Job.job_state r) "Failed"
   || Job.is_text (Job.job_state r) "Running")%bool.

(** The server answers in such a way that, tailing, the callback is never
    called: there is no job, or the job has no id, or a job polled or shown
    has no state. *)
Definition never_answered (s : Job.server) (res : option Job.job) : Prop :=
  match res with
  | None => True
  | Some r =>
      Job.truthy_field (Job.job_id r) = false
      \/ match Job.waitfor_reply s with
         | Job.Fails _ => False
         | Job.Replies r2 =>
             Job.truthy_field (Job.job_state r2) = false
             \/ (live r2 = true /\ Job.logs_reply s = None
                 /\ match Job.show_reply s with
                    | Job.Fails _ => False
                    | Job.Replies r3 =>
                        Job.truthy_field (Job.job_state r3) = false
                    end)
         end
  end.

(** A machine whose working directory is the root, not on the command
    line. *)
Definition root_world : world :=
  {| proc := {| platform := "linux"; env := fun _ => None; cwd := "/" |};
     paperspace_cli := false;
     tmpdir := "/tmp";
     stat := fun _ => None;
     tree := fun _ => File "none" 0;
     emitted := [];
     zipped := None |}.

Definition no_faults : faults := {| mkdirp_fails := None; write_fails := None |}.

(** Parameters that name a container and nothing else. *)
Definition bare_params : Job.params :=
  {| Job.p_json := Job.Undefined; Job.p_init := Job.Undefined;
     Job.p_tail := Job.Undefined; Job.p_project := None;
     Job.p_projectId := None; Job.p_container := Job.Str "ubuntu";
     Job.p_workspace := Job.Str "none"; Job.p_machineType := None;
     Job.p_command := None; Job.p_name := None; Job.p_dataset := None |}.

Definition empty_config : Job.config :=
  {| Job.getProject := None; Job.getProject_again := None;
     Job.getMachineType := None; Job.getContainer := None;
     Job.getCommand := None; Job.getWorkspace := None;
     Job.getName := None; Job.getDataset := None |}.

(** A job in the given state. *)
Definition job_in (state : string) : Job.job :=
  {| Job.job_id := Job.Has "j123abc"; Job.job_state := Job.Has state;
     Job.job_project := Job.Has "demo"; Job.jobError := Job.Null;
     Job.exitCode := Job.Has 0 |}.

(** A directory that does not exist holds no file. *)
Definition sound_disk (w : world) : Prop :=
  stat w (configDir w) = None -> stat w (configFileName w) = None.

(** The [stat] sizes of the directories the walk reaches. *)
Fixpoint dirs_total (e : entry) : Z :=
  if excluded (entry_name e) then 0
  else
    match e with
    | Dir _ sz children => sz + sumZ (map dirs_total children)
    | _ => 0
    end.

(** An action that ends a run of [create]: the remote call, the callback,
    or an exception nobody catches. *)
Definition terminal (a : action) : bool :=
  match a with
  | Invoke _ _ | Callback _ | Uncaught _ => true
  | _ => false
  end.

(** At most one terminal action, and nothing after it. *)
Fixpoint ends_once (trace : list action) : bool :=
  match trace with
  | [] => true
  | a :: rest =>
      if terminal a then match rest with [] => true | _ => false end
      else ends_once rest
  end.

(** An action that writes to the standard output. *)
Definition to_stdout (a : action) : bool :=
  match a with
  | ConsoleLog _ | BarNew _ _ | BarTick _ => true
  | _ => false
  end.

(** An action that hands an error to the callback. *)
Definition callback_error (a : action) : bool :=
  match a with
  | Callback (Some _) => true
  | _ => false
  end.

(** An action that calls the callback without an error. *)
Definition callback_plain (a : action) : bool :=
  match a with
  | Callback None => true
  | _ => false
  end.




(** A name that holds no path separator. *)
Definition no_separator (s : string) : Prop :=
  forall c, In c (chars s) -> c <> "/"%char.

(** [n] rounds of a query followed by the timer. *)
Definition polls (n : nat) : list event :=
  List.concat (repeat [Query; SetTimeout INTERVAL] n).

End Notions.

(* ================================================================== *)
(** * Properties *)

Import JS Create Waitfor Vocabulary.

(** Discharges [local_path] on a literal path. *)
Ltac concrete_local_path := repeat split; try discriminate; reflexivity.

(** ** Strings and paths *)

Lemma chars_str (l : list ascii) : chars (str l) = l.
Proof. apply list_ascii_of_string_of_list_ascii. Qed.

Lemma str_chars (s : string) : str (chars s) = s.
Proof. apply string_of_list_ascii_of_string. Qed.

Lemma chars_append (a b : string) : chars (a ++ b) = (chars a ++ chars b)%list.
Proof.
  induction a as [|c a IH]; simpl; [reflexivity|].
  unfold chars in *. simpl. now rewrite IH.
Qed.

Lemma substring_whole (s : string) : substring 0 (String.length s) s = s.
Proof. induction s as [|c s IH]; simpl; [reflexivity | now rewrite IH]. Qed.

Lemma slice_2_tilde (rest : string) : slice_2 ("~/" ++ rest) = rest.
Proof.
  unfold slice_2. simpl. rewrite Nat.sub_0_r. apply substring_whole.
Qed.

Lemma slice_0_2_tilde (p : string) :
  String.eqb (slice_0_2 p) "~/" = true -> exists rest, p = "~/" ++ rest.
Proof.
  intros H. apply String.eqb_eq in H. unfold slice_0_2 in H.
  destruct p as [|a [|b r]]; simpl in H; try discriminate.
  exists r. destruct r; simpl in H; injection H as -> ->; reflexivity.
Qed.

Lemma takeWhile_holds {A} (f : A -> bool) (l : list A) (x : A) :
  In x (Path.takeWhile f l) -> f x = true.
Proof.
  induction l as [|y l IH]; simpl; [tauto|].
  destruct (f y) eqn:E; simpl; [|tauto].
  intros [<-|H]; auto.
Qed.

Lemma takeWhile_app_stop {A} (f : A -> bool) (l r : list A) (x : A) :
  forallb f l = true -> f x = false ->
  Path.takeWhile f (l ++ x :: r) = l.
Proof.
  intros Hl Hx. induction l as [|y l IH]; simpl in *.
  - now rewrite Hx.
  - apply andb_prop in Hl as [-> Hl]. now rewrite IH.
Qed.

(** The result of [path.basename] holds no separator. *)
Lemma basename_no_separator (p : string) (c : ascii) :
  In c (chars (Path.basename p)) -> c <> "/"%char.
Proof.
  unfold Path.basename. rewrite chars_str. intros H.
  apply in_rev, takeWhile_holds in H.
  intros ->. discriminate.
Qed.

(** The base name of [dir/name] is [name]. *)
Lemma basename_last_component (dir name : string) :
  name <> EmptyString ->
  (forall c, In c (chars name) -> c <> "/"%char) ->
  Path.basename (dir ++ "/" ++ name) = name.
Proof.
  intros Hne Hns. unfold Path.basename.
  rewrite !chars_append, !rev_app_distr. simpl.
  assert (Hall : forallb (fun c => negb (Path.is_sep c)) (rev (chars name)) = true).
  { apply forallb_forall. intros c Hc. apply in_rev in Hc.
    unfold Path.is_sep. destruct (Ascii.eqb_spec c "/"); [|reflexivity].
    now apply Hns in Hc. }
  destruct (rev (chars name)) as [|c l] eqn:E.
  - exfalso. apply Hne. rewrite <- (str_chars name).
    rewrite <- (rev_involutive (chars name)), E. reflexivity.
  - simpl in Hall. apply andb_prop in Hall as [Hc Hl].
    simpl. apply negb_true_iff in Hc. rewrite Hc. simpl. rewrite Hc. simpl.
    rewrite <- app_assoc. simpl.
    rewrite takeWhile_app_stop by (auto).
    rewrite <- (str_chars name), <- (rev_involutive (chars name)), E.
    reflexivity.
Qed.

(** ** Home-directory expansion *)

(** The variable of the environment that names the home directory. *)
Lemma homedir_variable (proc : process) :
  (platform proc = "win32" ->
   expandHomeDir proc (Some "~") = Ret (env proc "USERPROFILE"))
  /\ (platform proc <> "win32" ->
      expandHomeDir proc (Some "~") = Ret (env proc "HOME")).
Proof.
  unfold expandHomeDir. split; intros H.
  - rewrite H. reflexivity.
  - apply String.eqb_neq in H. rewrite H. reflexivity.
Qed.

(** C10.  [expandHomeDir] maps "~" to the home directory, maps "~/rest" to
    the home directory joined with [rest] by [path.join], and returns every
    other input, [undefined] and the empty string included, as it is. *)
Theorem expandHomeDir_cases (proc : process) :
  let home := env proc (if String.eqb (platform proc) "win32"
                        then "USERPROFILE" else "HOME") in
  expandHomeDir proc (Some "~") = Ret home
  /\ (forall h rest,
        home = Some h ->
        expandHomeDir proc (Some ("~/" ++ rest))
        = Ret (Some (Path.join h rest)))
  /\ (forall pathIn,
        pathIn <> Some "~" ->
        (forall rest, pathIn <> Some ("~/" ++ rest)) ->
        expandHomeDir proc pathIn = Ret pathIn).
Proof.
  intros home. repeat split.
  - intros h rest Hh. unfold expandHomeDir. fold home. rewrite Hh.
    rewrite slice_2_tilde.
    assert (Hs : slice_0_2 ("~/" ++ rest) = "~/") by (destruct rest; reflexivity).
    rewrite Hs. reflexivity.
  - intros pathIn Hne Hpre. unfold expandHomeDir.
    destruct pathIn as [p|]; [|reflexivity].
    destruct (String.eqb_spec p EmptyString); [reflexivity|].
    destruct (String.eqb_spec p "~"); [congruence|].
    destruct (String.eqb (slice_0_2 p) "~/") eqn:E; [|reflexivity].
    apply slice_0_2_tilde in E as [rest ->]. now elim (Hpre rest).
Qed.

Lemma expandHomeDir_cases_witness :
  expandHomeDir proc_linux (Some "~/proj/../data") = Ret (Some "/home/u/data")
  /\ expandHomeDir proc_linux (Some "~user") = Ret (Some "~user")
  /\ expandHomeDir proc_linux None = Ret None.
Proof.
  destruct (expandHomeDir_cases proc_linux) as (_ & Hjoin & Hsame).
  split; [|split].
  - apply (Hjoin "/home/u" "proj/../data"). reflexivity.
  - apply Hsame; [discriminate | intros rest; discriminate].
  - apply Hsame; [discriminate | intros rest; discriminate].
Defined.

(** ** The directory size walk *)

Lemma fold_left_add (l : list Z) (a : Z) : fold_left Z.add l a = a + sumZ l.
Proof.
  revert a. induction l as [|x l IH]; intros a; simpl; [lia|].
  rewrite IH. lia.
Qed.

Lemma reduce_add_sum (l : list Z) : reduce_add l = sumZ l.
Proof. unfold reduce_add. rewrite fold_left_add. lia. Qed.

Lemma sumZ_app (l r : list Z) : sumZ (l ++ r) = sumZ l + sumZ r.
Proof. induction l as [|x l IH]; simpl; [reflexivity | rewrite IH; lia]. Qed.

Lemma sumZ_flat_map {A B} (f : A -> list (B * Z)) (l : list A) :
  sumZ (map snd (flat_map f l)) = sumZ (map (fun a => sumZ (map snd (f a))) l).
Proof.
  induction l as [|a l IH]; simpl; [reflexivity|].
  rewrite map_app, sumZ_app, IH. reflexivity.
Qed.

Lemma sumZ_perm (l r : list Z) : Permutation l r -> sumZ l = sumZ r.
Proof. induction 1; simpl; lia. Qed.

(** On a tree every call of the walk succeeds on, the walk returns the
    sizes of the entries it stats, added to what it was given. *)
Lemma directorySize_from_walked (e : entry) :
  readable e = true ->
  forall size prefix,
    directorySize_from size e = Size (size + sumZ (map snd (walked prefix e))).
Proof.
  induction e as [name sz|name sz children IH|name|name sz]
    using entry_induction; intros Hr size prefix; simpl in *;
    destruct (excluded name) eqn:Ex; simpl in *;
    try discriminate; try (f_equal; lia).
  assert (Hmap : forall g : entry -> list string,
             async_map_sizes (map (directorySize_from 0) children)
             = Some (map (fun c => sumZ (map snd (walked (g c) c))) children)).
  { intros g. induction children as [|c cs IHcs]; simpl; [reflexivity|].
    simpl in Hr. apply andb_prop in Hr as [Hc Hcs].
    inversion IH as [|? ? Pc Pcs]; subst.
    rewrite (Pc Hc 0 (g c)), (IHcs Pcs Hcs). simpl. reflexivity. }
  rewrite (Hmap (fun c => (prefix ++ [entry_name c])%list)).
  rewrite reduce_add_sum, sumZ_flat_map. f_equal. lia.
Qed.

Lemma async_map_sizes_perm (rs rs' : list walk_result) :
  Permutation rs rs' ->
  match async_map_sizes rs, async_map_sizes rs' with
  | Some l, Some l' => Permutation l l'
  | None, None => True
  | _, _ => False
  end.
Proof.
  induction 1 as [|x l l' _ IH|x y l|l l' l'' _ IH1 _ IH2]; simpl.
  - constructor.
  - destruct x; [|exact I].
    destruct (async_map_sizes l), (async_map_sizes l'); simpl; auto.
  - destruct x, y; simpl; try exact I.
    destruct (async_map_sizes l); simpl; [constructor | exact I].
  - destruct (async_map_sizes l), (async_map_sizes l'), (async_map_sizes l'');
      try tauto.
    eapply Permutation_trans; eassumption.
Qed.

Lemma map_walk_reordered (cs ds : list entry) :
  Forall (fun c => forall e', reordered c e' ->
                   forall size,
                     directorySize_from size c = directorySize_from size e') cs ->
  Forall2 reordered cs ds ->
  map (directorySize_from 0) cs = map (directorySize_from 0) ds.
Proof.
  intros HP H2. induction H2 as [|c d cs ds Hcd _ IH]; simpl; [reflexivity|].
  inversion HP as [|? ? Pc Pcs]; subst.
  rewrite (Pc d Hcd 0), (IH Pcs). reflexivity.
Qed.

(** The order in which [fs.readdir] lists the children of any directory
    does not change what the walk returns. *)
Lemma directorySize_from_reordered (e : entry) :
  forall e', reordered e e' ->
  forall size, directorySize_from size e = directorySize_from size e'.
Proof.
  induction e as [name sz|name sz children IH|name|name sz]
    using entry_induction; intros e' H size; inversion H; subst;
    try reflexivity.
  simpl. destruct (excluded name); [reflexivity|].
  rewrite (map_walk_reordered children ds) by assumption.
  match goal with Hp : Permutation ds _ |- _ =>
    pose proof (async_map_sizes_perm _ _
                  (Permutation_map (directorySize_from 0) Hp)) as Hperm end.
  destruct (async_map_sizes (map (directorySize_from 0) ds)),
    (async_map_sizes (map (directorySize_from 0) ds')); try tauto.
  rewrite !reduce_add_sum, (sumZ_perm _ _ Hperm). reflexivity.
Qed.

(** C2, as amended.  On a tree whose entries can all be read, the size
    computation returns the sum of the [stat] sizes of every entry it
    reaches, directories and the root included, an entry named [.git] or
    [.gitignore] and everything below it adding nothing; and the result is
    the same for every order of the directory listings. *)
Theorem directorySize_sums_reached_entries (t : entry) :
  (readable t = true ->
   directorySize t = Size (sumZ (map snd (walked [] t))))
  /\ (forall t', reordered t t' -> directorySize t' = directorySize t).
Proof.
  split.
  - intros Hr. unfold directorySize.
    rewrite (directorySize_from_walked t Hr 0 []). reflexivity.
  - intros t' H. unfold directorySize. symmetry.
    now apply directorySize_from_reordered.
Qed.

Lemma directorySize_sums_reached_entries_witness :
  directorySize project_tree = Size 4126
  /\ directorySize project_tree_shuffled = directorySize project_tree.
Proof.
  destruct (directorySize_sums_reached_entries project_tree) as [Hsum Hord].
  split.
  - rewrite Hsum; reflexivity.
  - apply Hord. unfold project_tree, project_tree_shuffled.
    apply reordered_dir
      with (ds := [File "a" 10; File "b" 20; File ".gitignore" 1000;
                   Dir ".git" 4096 [File "config" 5]]).
    + repeat (apply Forall2_cons; [apply reordered_refl|]). apply Forall2_nil.
    + apply (Permutation_rev
               [File "a" 10; File "b" 20; File ".gitignore" 1000;
                Dir ".git" 4096 [File "config" 5]]).
Defined.

(** C2, as first stated, fails: the sizes of the files with names that are
    not excluded add up to 30, and the walk returns 4126, the [stat] size of
    the directory itself being added. *)
Lemma directorySize_counts_directory_entries :
  files_total project_tree = 30
  /\ directorySize project_tree = Size 4126
  /\ directorySize project_tree <> Size (files_total project_tree).
Proof. repeat split; try reflexivity. discriminate. Qed.

(** ** Archiving and the upload gate *)

Lemma ifCliPrintErrorOnly_no_invoke w json err f n :
  ~ In (Invoke f n) (ifCliPrintErrorOnly w json err).
Proof.
  unfold ifCliPrintErrorOnly. destruct (interactive w json); simpl;
    intros H; repeat (destruct H as [H|H]; try discriminate); exact H.
Qed.

(** A remote call made from the handlers uploads the built archive, which
    ['close'] has found within the ceiling. *)
Lemma handle_invoke w json ws st zip_file total events :
  forall bar prev f n,
    In (Invoke f n) (handle w json ws st zip_file total bar prev events) ->
    f = Some zip_file
    /\ exists size, zipped w = Some size /\ size <= MAX_UPLOAD_SIZE.
Proof.
  induction events as [|ev events IH]; intros bar prev f n H; simpl in H;
    [contradiction|].
  destruct ev as [err|err|bytes|].
  - destruct (code err) as [c|]; [destruct (String.eqb c "ENOENT")|];
      simpl in H; repeat (destruct H as [H|H]; try discriminate);
      try contradiction.
    eapply IH; eassumption.
  - destruct H as [H|H]; [discriminate|]. eapply IH; eassumption.
  - destruct (isDirectory st && interactive w json)%bool.
    + apply in_app_or in H as [H|H].
      * destruct bar; simpl in H; [contradiction|].
        destruct H as [H|H]; [discriminate | contradiction].
      * destruct H as [H|H]; [discriminate|]. eapply IH; eassumption.
    + eapply IH; eassumption.
  - unfold on_close in H. destruct (zipped w) as [size|].
    + destruct (size >? MAX_UPLOAD_SIZE) eqn:E.
      * now apply ifCliPrintErrorOnly_no_invoke in H.
      * destruct H as [H|[]]. injection H as <- _.
        split; [reflexivity|]. exists size. split; [reflexivity|].
        rewrite Z.gtb_ltb in E. apply Z.ltb_ge in E. exact E.
    + destruct H as [H|[]]. discriminate.
Qed.

(** Once the output stream closes on an archive within the ceiling, the
    remote call is made with it. *)
Lemma handle_closes w json ws st zip_file total events size :
  closes events = true -> zipped w = Some size -> size <= MAX_UPLOAD_SIZE ->
  forall bar prev,
    In (Invoke (Some zip_file) (Some (Path.basename zip_file)))
       (handle w json ws st zip_file total bar prev events).
Proof.
  intros Hc Hz Hs. induction events as [|ev events IH]; intros bar prev;
    simpl in *; [discriminate|].
  destruct ev as [err|err|bytes|].
  - destruct (code err) as [c|]; [|discriminate].
    destruct (String.eqb c "ENOENT"); [|discriminate].
    right. now apply IH.
  - right. now apply IH.
  - destruct (isDirectory st && interactive w json)%bool.
    + apply in_or_app. right. right. now apply IH.
    + now apply IH.
  - unfold on_close. rewrite Hz.
    destruct (size >? MAX_UPLOAD_SIZE) eqn:E.
    + apply Z.gtb_lt in E. lia.
    + left. reflexivity.
Qed.

Lemma zipFunc_invoke w json ws st zip_file total f n :
  In (Invoke f n) (zipFunc w json ws st zip_file total) ->
  f = Some zip_file
  /\ exists size, zipped w = Some size /\ size <= MAX_UPLOAD_SIZE.
Proof.
  unfold zipFunc. intros [H|[H|[H|H]]]; try discriminate.
  - destruct (isDirectory st); discriminate.
  - eapply handle_invoke; eassumption.
Qed.

(** What [create] does with a workspace on the local disk. *)
Lemma create_local w json workspace ws st :
  local_path workspace ->
  expandHomeDir (proc w) (Some workspace) = Ret (Some ws) ->
  stat w ws = Some st ->
  st_kind st <> IsOther ->
  create w json workspace
  = if is_archive ws
    then
      if st_size st >? MAX_UPLOAD_SIZE
      then ifCliPrintErrorOnly w json
             (Error ("Error: zipped workspace " ++ ws ++ " cannot exceed "
                     ++ decimal MAX_UPLOAD_SIZE ++ " bytes."))
      else [Invoke (Some ws) (Some (Path.basename ws))]
    else
      ((if existsSync w (zip_path w ws) then [Unlink (zip_path w ws)] else [])
         ++ (if isDirectory st
             then zipFunc w json ws st (zip_path w ws)
                    (walk_total (directorySize (tree w ws)))
             else
               (if interactive w json
                then [ConsoleLog ("Zipping file " ++ Path.basename ws)]
                else [])
                 ++ zipFunc w json ws st (zip_path w ws) (Some (st_size st))))%list.
Proof.
  intros (Hroot & Hnone & Hhttp & Hgit) Hexp Hst Hkind. unfold create.
  apply String.eqb_neq in Hroot, Hnone.
  rewrite Hroot, Hnone, Hhttp, Hgit, Hexp, Hst. simpl.
  replace (negb (isDirectory st) && negb (isFile st))%bool with false
    by (unfold isDirectory, isFile; destruct (st_kind st) eqn:K; simpl; congruence).
  unfold is_archive.
  destruct (endsWith ws ".zip"), (endsWith ws ".gz"); reflexivity.
Qed.

(** C1.  An upload is only ever made of a file whose size on disk was found
    to be at most 104,857,600 bytes: the workspace itself when it is a zip
    or gzip file, the archive just built otherwise.  A workspace that is an
    archive leads to the remote call exactly when its size does not exceed
    the ceiling, and so does an archive that has been built, once its output
    stream has closed; a size equal to the ceiling passes. *)
Theorem upload_size_gate (w : world) (json : bool) (workspace : string) :
  (forall f n,
      In (Invoke (Some f) n) (create w json workspace) ->
      exists ws,
        expandHomeDir (proc w) (Some workspace) = Ret (Some ws)
        /\ ((is_archive ws = true /\ f = ws
             /\ exists st, stat w ws = Some st /\ st_size st <= 104857600)
            \/ (is_archive ws = false /\ f = zip_path w ws
                /\ exists size, zipped w = Some size /\ size <= 104857600)))
  /\ (forall ws st,
         local_path workspace ->
         expandHomeDir (proc w) (Some workspace) = Ret (Some ws) ->
         stat w ws = Some st -> st_kind st <> IsOther ->
         is_archive ws = true ->
         (invokes (create w json workspace) <-> st_size st <= 104857600))
  /\ (forall ws st size,
         local_path workspace ->
         expandHomeDir (proc w) (Some workspace) = Ret (Some ws) ->
         stat w ws = Some st -> st_kind st <> IsOther ->
         is_archive ws = false ->
         closes (emitted w) = true -> zipped w = Some size ->
         (invokes (create w json workspace) <-> size <= 104857600)).
Proof.
  split; [|split].
  - intros f n H. unfold create in H.
    destruct (String.eqb workspace "/");
      [now apply ifCliPrintErrorOnly_no_invoke in H|].
    destruct (negb (String.eqb workspace "none")
              && negb (startsWith workspace "https://")
              && negb (startsWith workspace "git+https://"))%bool;
      [|destruct H as [H|[]]; discriminate].
    destruct (expandHomeDir (proc w) (Some workspace)) as [[ws|]|msg];
      [| now apply ifCliPrintErrorOnly_no_invoke in H
       | destruct H as [H|[]]; discriminate].
    exists ws. split; [reflexivity|].
    destruct (stat w ws) as [st|];
      [|now apply ifCliPrintErrorOnly_no_invoke in H].
    destruct (negb (isDirectory st) && negb (isFile st))%bool;
      [now apply ifCliPrintErrorOnly_no_invoke in H|].
    unfold is_archive. rewrite <- negb_orb in H.
    destruct (endsWith ws ".zip" || endsWith ws ".gz")%bool; simpl in H.
    + left. destruct (st_size st >? MAX_UPLOAD_SIZE) eqn:E;
        [now apply ifCliPrintErrorOnly_no_invoke in H|].
      destruct H as [H|[]]. injection H as <- _.
      repeat split. exists st. split; [reflexivity|].
      rewrite Z.gtb_ltb in E. apply Z.ltb_ge in E. exact E.
    + right. fold (zip_path w ws) in H.
      assert (Hz : Some f = Some (zip_path w ws)
                   /\ exists size, zipped w = Some size
                                   /\ size <= MAX_UPLOAD_SIZE).
      { apply in_app_or in H as [H|H].
        - destruct (existsSync w (zip_path w ws));
            [destruct H as [H|[]]; discriminate | contradiction].
        - destruct (isDirectory st);
            [eapply zipFunc_invoke; eassumption|].
          apply in_app_or in H as [H|H];
            [|eapply zipFunc_invoke; eassumption].
          destruct (interactive w json);
            [destruct H as [H|[]]; discriminate | contradiction]. }
      destruct Hz as [Hf Hsize]. injection Hf as ->. auto.
  - intros ws st Hloc Hexp Hst Hkind Harch.
    rewrite (create_local w json workspace ws st) by assumption.
    rewrite Harch. destruct (st_size st >? MAX_UPLOAD_SIZE) eqn:E.
    + apply Z.gtb_lt in E. split; [|unfold MAX_UPLOAD_SIZE in E; lia].
      intros (f & n & H). now apply ifCliPrintErrorOnly_no_invoke in H.
    + rewrite Z.gtb_ltb in E. apply Z.ltb_ge in E. split; [intros _; exact E|].
      intros _. exists (Some ws), (Some (Path.basename ws)). now left.
  - intros ws st size Hloc Hexp Hst Hkind Harch Hclose Hz.
    rewrite (create_local w json workspace ws st) by assumption.
    rewrite Harch. split.
    + intros (f & n & H).
      assert (Hs : f = Some (zip_path w ws)
                   /\ exists s, zipped w = Some s /\ s <= MAX_UPLOAD_SIZE).
      { apply in_app_or in H as [H|H].
        - destruct (existsSync w (zip_path w ws));
            [destruct H as [H|[]]; discriminate | contradiction].
        - destruct (isDirectory st);
            [eapply zipFunc_invoke; eassumption|].
          apply in_app_or in H as [H|H];
            [|eapply zipFunc_invoke; eassumption].
          destruct (interactive w json);
            [destruct H as [H|[]]; discriminate | contradiction]. }
      destruct Hs as (_ & s & Hs & Hle). rewrite Hz in Hs.
      injection Hs as <-. exact Hle.
    + intros Hle.
      exists (Some (zip_path w ws)), (Some (Path.basename (zip_path w ws))).
      apply in_or_app. right.
      assert (Hin : forall total,
                 In (Invoke (Some (zip_path w ws))
                            (Some (Path.basename (zip_path w ws))))
                    (zipFunc w json ws st (zip_path w ws) total)).
      { intros total. unfold zipFunc. right. right. right.
        now apply handle_closes with (size := size). }
      destruct (isDirectory st); [apply Hin|].
      apply in_or_app. right. apply Hin.
Qed.

Lemma upload_size_gate_witness :
  invokes (create (sample_world 104857600 [] None) false "/data/ws.zip")
  /\ ~ invokes (create (sample_world 104857601 [] None) false "/data/ws.zip")
  /\ invokes (create (sample_world 0 [EvWarning gone; EvClose] (Some 104857600))
                     false "/data/proj").
Proof.
  split; [|split].
  - refine (proj2 (proj1 (proj2 (upload_size_gate _ false "/data/ws.zip"))
                     "/data/ws.zip"
                     {| st_kind := IsFile; st_size := 104857600 |}
                     _ _ _ _ _) _).
    + concrete_local_path.
    + reflexivity.
    + reflexivity.
    + discriminate.
    + reflexivity.
    + simpl. lia.
  - intros H.
    refine (_ (proj1 (proj1 (proj2 (upload_size_gate _ false "/data/ws.zip"))
                        "/data/ws.zip"
                        {| st_kind := IsFile; st_size := 104857601 |}
                        _ _ _ _ _) H)).
    + simpl. lia.
    + concrete_local_path.
    + reflexivity.
    + reflexivity.
    + discriminate.
    + reflexivity.
  - refine (proj2 (proj2 (proj2 (upload_size_gate _ false "/data/proj"))
                     "/data/proj"
                     {| st_kind := IsDirectory; st_size := 4096 |}
                     104857600 _ _ _ _ _ _ _) _).
    + concrete_local_path.
    + reflexivity.
    + reflexivity.
    + discriminate.
    + reflexivity.
    + reflexivity.
    + reflexivity.
    + lia.
Defined.

Lemma ifCliPrintErrorOnly_callback w json err e :
  In (Callback (Some e)) (ifCliPrintErrorOnly w json err) -> e = err.
Proof.
  unfold ifCliPrintErrorOnly. destruct (interactive w json); simpl;
    intros H; repeat (destruct H as [H|H]; try discriminate);
    try contradiction.
  now injection H.
Qed.

(** The only error the handlers pass to the callback is that of the size
    gate. *)
Lemma handle_callback w json ws st zip_file total events :
  forall bar prev e,
    In (Callback (Some e))
       (handle w json ws st zip_file total bar prev events) ->
    e = size_error zip_file.
Proof.
  induction events as [|ev events IH]; intros bar prev e H; simpl in H;
    [contradiction|].
  destruct ev as [err|err|bytes|].
  - destruct (code err) as [c|]; [destruct (String.eqb c "ENOENT")|];
      simpl in H; repeat (destruct H as [H|H]; try discriminate);
      try contradiction.
    eapply IH; eassumption.
  - destruct H as [H|H]; [discriminate|]. eapply IH; eassumption.
  - destruct (isDirectory st && interactive w json)%bool.
    + apply in_app_or in H as [H|H].
      * destruct bar; simpl in H; [contradiction|].
        destruct H as [H|H]; [discriminate | contradiction].
      * destruct H as [H|H]; [discriminate|]. eapply IH; eassumption.
    + eapply IH; eassumption.
  - unfold on_close in H. destruct (zipped w) as [size|].
    + destruct (size >? MAX_UPLOAD_SIZE).
      * now apply ifCliPrintErrorOnly_callback in H.
      * destruct H as [H|[]]. discriminate.
    + destruct H as [H|[]]. discriminate.
Qed.

(** C8, as amended.  While archiving, an [ENOENT] warning is logged and the
    run goes on; any other warning is thrown out of the handler and ends the
    run without the callback being called; on an ['error'] event of the
    archiver the handler writes the error to the console and does nothing
    else, so that, the archiver emitting nothing after it, the run ends there
    with no remote call and the callback never called; and no error of the
    archiver is ever passed to the callback, whose only error from this
    stage is that of the size gate. *)
Theorem archive_failures_logged_or_thrown
        (w : world) (json : bool) (ws : string) (st : stats)
        (zip_file : string) (total : option Z) (bar : bool) (prev : Z)
        (err : error) (rest : list archive_event) :
  (code err = Some "ENOENT" ->
   handle w json ws st zip_file total bar prev (EvWarning err :: rest)
   = ConsoleError "ENOENT" :: handle w json ws st zip_file total bar prev rest)
  /\ (code err <> Some "ENOENT" ->
      handle w json ws st zip_file total bar prev (EvWarning err :: rest)
      = [Uncaught err])
  /\ (exists tail,
         handle w json ws st zip_file total bar prev (EvError err :: rest)
         = ConsoleErrorObject "Error while zipping: " err :: tail
         /\ (rest = [] -> tail = []))
  /\ (forall events e,
         In (Callback (Some e))
            (handle w json ws st zip_file total bar prev events) ->
         e = size_error zip_file).
Proof.
  split; [|split; [|split]].
  - intros Hc. simpl. rewrite Hc. reflexivity.
  - intros Hc. simpl. destruct (code err) as [c|]; [|reflexivity].
    destruct (String.eqb_spec c "ENOENT"); [congruence | reflexivity].
  - exists (handle w json ws st zip_file total bar prev rest).
    split; [reflexivity|]. intros ->. reflexivity.
  - intros events e. apply handle_callback.
Qed.

Lemma archive_failures_logged_or_thrown_witness :
  let run := handle (sample_world 0 [] None) false "/data/notes.txt"
                    {| st_kind := IsFile; st_size := 500 |}
                    "/tmp/notes.txt.zip" (Some 500) false 0 in
  run [EvWarning gone; EvError (Error "write EIO")]
  = ConsoleError "ENOENT" :: run [EvError (Error "write EIO")]
  /\ run [EvWarning (Error "EACCES"); EvClose] = [Uncaught (Error "EACCES")].
Proof.
  split.
  - refine (proj1 (archive_failures_logged_or_thrown
                     (sample_world 0 [] None) false "/data/notes.txt"
                     {| st_kind := IsFile; st_size := 500 |}
                     "/tmp/notes.txt.zip" (Some 500) false 0 gone
                     [EvError (Error "write EIO")]) _).
    reflexivity.
  - refine (proj1 (proj2 (archive_failures_logged_or_thrown
                     (sample_world 0 [] None) false "/data/notes.txt"
                     {| st_kind := IsFile; st_size := 500 |}
                     "/tmp/notes.txt.zip" (Some 500) false 0
                     (Error "EACCES") [EvClose])) _).
    discriminate.
Defined.

(** C8, as first stated, fails.  When the archiver fails with an ['error']
    event, after which it emits nothing, the error is written to the
    console and that is all: the callback is not called, with the error or
    without.  When the archiver warns of something else than [ENOENT], the
    handler throws, and the callback is not called either. *)
Lemma archive_error_is_only_logged :
  let failure := Error "write EIO" in
  let refused := {| message := "EACCES: permission denied";
                    code := Some "EACCES" |} in
  let failed := create (sample_world 0 [EvError failure] None)
                       false "/data/notes.txt" in
  let warned := create (sample_world 0 [EvWarning refused] None)
                       false "/data/notes.txt" in
  failed = [CreateWriteStream "/tmp/notes.txt.zip";
            ArchiveFile "/data/notes.txt" "notes.txt";
            ArchiveFinalize;
            ConsoleErrorObject "Error while zipping: " failure]
  /\ warned = [CreateWriteStream "/tmp/notes.txt.zip";
               ArchiveFile "/data/notes.txt" "notes.txt";
               ArchiveFinalize;
               Uncaught refused]
  /\ (forall e, ~ In (Callback e) failed)
  /\ (forall e, ~ In (Callback e) warned).
Proof.
  cbv zeta. split; [reflexivity|]. split; [reflexivity|].
  split; intros e; vm_compute;
    intros H; repeat (destruct H as [H|H]; try discriminate); exact H.
Qed.

(** ** The archive of a single file *)

Lemma handle_no_requests w json ws st zip_file total events :
  forall bar prev,
    archive_requests (handle w json ws st zip_file total bar prev events) = [].
Proof.
  induction events as [|ev events IH]; intros bar prev; simpl;
    [reflexivity|].
  destruct ev as [err|err|bytes|].
  - destruct (code err) as [c|]; [destruct (String.eqb c "ENOENT")|];
      simpl; auto.
  - simpl. auto.
  - destruct (isDirectory st && interactive w json)%bool; [|auto].
    unfold archive_requests. rewrite filter_app. fold archive_requests.
    simpl. rewrite IH. destruct bar; reflexivity.
  - unfold on_close. destruct (zipped w) as [size|]; [|reflexivity].
    destruct (size >? MAX_UPLOAD_SIZE); [|reflexivity].
    unfold ifCliPrintErrorOnly. destruct (interactive w json); reflexivity.
Qed.

(** C9.  For a workspace that is a single file and neither a zip nor a gzip
    file, [create] makes one request to the archiver: the file itself, to
    be stored under its base name; the archive so gets one entry, whose name
    holds no separator. *)
Theorem single_file_archive_entry
        (w : world) (json : bool) (workspace ws : string) (st : stats) :
  local_path workspace ->
  expandHomeDir (proc w) (Some workspace) = Ret (Some ws) ->
  stat w ws = Some st ->
  isFile st = true ->
  is_archive ws = false ->
  archive_requests (create w json workspace)
  = [ArchiveFile ws (Path.basename ws)]
  /\ flat_map (entries_of (tree w ws))
              (archive_requests (create w json workspace))
     = [Path.basename ws]
  /\ (forall c, In c (chars (Path.basename ws)) -> c <> "/"%char).
Proof.
  intros Hloc Hexp Hst Hfile Harch.
  assert (Hreq : archive_requests (create w json workspace)
                 = [ArchiveFile ws (Path.basename ws)]).
  { rewrite (create_local w json workspace ws st); try assumption.
    - rewrite Harch.
      assert (Hdir : isDirectory st = false)
        by (unfold isFile, isDirectory in *; destruct (st_kind st);
            congruence).
      rewrite Hdir. unfold archive_requests. rewrite !filter_app.
      fold archive_requests. unfold zipFunc. rewrite Hdir. simpl.
      rewrite handle_no_requests.
      destruct (existsSync w (zip_path w ws)), (interactive w json);
        reflexivity.
    - unfold isFile in Hfile. destruct (st_kind st); congruence. }
  rewrite Hreq. repeat split. apply basename_no_separator.
Qed.

Lemma single_file_archive_entry_witness :
  archive_requests (create (sample_world 0 [EvClose] (Some 300))
                           false "/data/notes.txt")
  = [ArchiveFile "/data/notes.txt" "notes.txt"].
Proof.
  refine (proj1 (single_file_archive_entry
                   (sample_world 0 [EvClose] (Some 300)) false
                   "/data/notes.txt" "/data/notes.txt"
                   {| st_kind := IsFile; st_size := 500 |} _ _ _ _ _)).
  - concrete_local_path.
  - reflexivity.
  - reflexivity.
  - reflexivity.
  - reflexivity.
Defined.

(** ** The ignore patterns of the archiver *)

Lemma matchOne_globstar (p : Minimatch.part) (rest : list Minimatch.part)
      (file : list string) :
  Minimatch.matchOne (Minimatch.GlobStar :: p :: rest) file
  = (Minimatch.matchOne (p :: rest) file
     || match file with
        | [] => false
        | f :: fs =>
            if Minimatch.dot_dir f then false
            else Minimatch.matchOne (Minimatch.GlobStar :: p :: rest) fs
        end)%bool.
Proof. destruct file; reflexivity. Qed.

(** [**/name] matches the paths that end in [name]. *)
Lemma matchOne_ends_with (name : string) (path : list string) :
  Forall proper path ->
  Minimatch.matchOne [Minimatch.GlobStar; Minimatch.Lit name] path = true
  <-> exists pre, path = (pre ++ [name])%list.
Proof.
  intros Hp. induction Hp as [|f fs [Hf Hd] Hfs IH].
  - simpl. split; [discriminate|]. intros [[|? ?] H]; discriminate.
  - rewrite matchOne_globstar, Hd, orb_true_iff, IH. split.
    + intros [H|[pre ->]]; [|exists (f :: pre); reflexivity].
      simpl in H. apply andb_prop in H as [Hn H].
      apply String.eqb_eq in Hn. subst f.
      destruct fs as [|g [|? ?]]; try discriminate; [exists []; reflexivity|].
      apply String.eqb_eq in H. subst g.
      inversion Hfs as [|? ? [Hg _] _]; subst. now elim Hg.
    + intros [[|a pre] H]; simpl in H; injection H as -> ->.
      * left. simpl. now rewrite String.eqb_refl.
      * right. eauto.
Qed.

Lemma proper_not_dot_dirs (path : list string) :
  Forall proper path ->
  forallb (fun f => negb (Minimatch.dot_dir f)) path = true.
Proof.
  induction 1 as [|f fs [_ Hd] _ IH]; simpl; [reflexivity|].
  now rewrite Hd, IH.
Qed.

(** [**/name/**] matches the paths that go through [name]. *)
Lemma matchOne_goes_through (name : string) (path : list string) :
  Forall proper path ->
  Minimatch.matchOne
    [Minimatch.GlobStar; Minimatch.Lit name; Minimatch.GlobStar] path = true
  <-> exists pre post, path = (pre ++ name :: post)%list /\ post <> [].
Proof.
  intros Hp. induction Hp as [|f fs [Hf Hd] Hfs IH].
  - simpl. split; [discriminate|]. intros ([|? ?] & post & H & _); discriminate.
  - rewrite matchOne_globstar, Hd, orb_true_iff, IH. split.
    + intros [H|(pre & post & -> & Hn)];
        [|exists (f :: pre), post; split; [reflexivity | exact Hn]].
      simpl in H. apply andb_prop in H as [Hn H].
      apply String.eqb_eq in Hn. subst f.
      exists [], fs. split; [reflexivity|]. intros ->. discriminate.
    + intros ([|a pre] & post & H & Hn); simpl in H; injection H as -> ->.
      * left. simpl. rewrite String.eqb_refl. simpl.
        destruct post as [|g post]; [now elim Hn|].
        now apply proper_not_dot_dirs.
      * right. eauto.
Qed.

(** A path is ignored by the archiver exactly when it holds the name
    [.git] anywhere or ends in the name [.gitignore]. *)
Lemma isIgnored_ignore_list (path : list string) :
  Forall proper path ->
  Minimatch.isIgnored ignore_list path = true
  <-> In ".git" path \/ exists pre, path = (pre ++ [".gitignore"])%list.
Proof.
  intros Hp.
  change (Minimatch.isIgnored ignore_list path)
    with ((Minimatch.matchOne
             [Minimatch.GlobStar; Minimatch.Lit ".git"; Minimatch.GlobStar] path
           || Minimatch.matchOne
                [Minimatch.GlobStar; Minimatch.Lit ".git"] path)
          || ((Minimatch.matchOne
                 [Minimatch.GlobStar; Minimatch.Lit ".git"] path || false)
              || ((Minimatch.matchOne
                     [Minimatch.GlobStar; Minimatch.Lit ".gitignore"] path
                   || false) || false)))%bool.
  rewrite !orb_false_r, !orb_true_iff.
  rewrite (matchOne_goes_through ".git" path Hp),
    !(matchOne_ends_with _ path Hp).
  split.
  - intros [[(pre & post & -> & _)|[pre ->]]|[[pre ->]|H]]; auto;
      left; apply in_or_app; right; now left.
  - intros [H|H]; [|auto].
    apply in_split in H as (pre & post & ->).
    destruct post as [|g post]; [right; left; eauto|].
    left. left. exists pre, (g :: post). split; [reflexivity | discriminate].
Qed.

(** ** Where the walk and the archiver agree *)

Lemma descendants_shape (t : entry) :
  forall prefix p,
    In p (descendants prefix t) ->
    exists q, p = (prefix ++ q)%list /\ q <> [].
Proof.
  induction t as [name sz|name sz children IH|name|name sz]
    using entry_induction; intros prefix p H; simpl in H; try contradiction.
  apply in_flat_map in H as (c & Hc & [H|H]).
  - exists [entry_name c]. split; [now subst | discriminate].
  - rewrite Forall_forall in IH. apply (IH c Hc) in H as (q & -> & _).
    exists (entry_name c :: q). rewrite <- app_assoc. split;
      [reflexivity | discriminate].
Qed.

(** Every path the walk stats is made of names it keeps. *)
Lemma walked_segments (t : entry) :
  forall prefix p,
    In p (map fst (walked prefix t)) ->
    exists q, p = (prefix ++ q)%list /\ Forall kept q.
Proof.
  induction t as [name sz|name sz children IH|name|name sz]
    using entry_induction; intros prefix p H; simpl in H;
    destruct (excluded name) eqn:Ex; simpl in H; try contradiction;
    try (destruct H as [<-|[]]; exists []; rewrite app_nil_r; now split).
  destruct H as [<-|H]; [exists []; rewrite app_nil_r; now split|].
  apply in_map_iff in H as ([p' sz'] & <- & H).
  apply in_flat_map in H as (c & Hc & H).
  rewrite Forall_forall in IH.
  destruct (IH c Hc (prefix ++ [entry_name c])%list p') as (q & Hq & Hk).
  { apply in_map_iff. now exists (p', sz'). }
  exists (entry_name c :: q). simpl. rewrite Hq, <- app_assoc. split;
    [reflexivity|].
  constructor; [|exact Hk]. unfold kept.
  destruct (excluded (entry_name c)) eqn:Ec; [|reflexivity].
  exfalso. destruct c; simpl in Ec, H; rewrite Ec in H; exact H.
Qed.

(** On a readable tree the walk stats every listed path made of names it
    keeps. *)
Lemma descendants_walked (t : entry) :
  readable t = true -> excluded (entry_name t) = false ->
  forall prefix q,
    In (prefix ++ q)%list (descendants prefix t) ->
    Forall kept q ->
    In (prefix ++ q)%list (map fst (walked prefix t)).
Proof.
  induction t as [name sz|name sz children IH|name|name sz]
    using entry_induction; intros Hr Hx prefix q H Hk; simpl in H;
    try contradiction.
  simpl in Hr, Hx. rewrite Hx in Hr. simpl in Hr. simpl. rewrite Hx. simpl.
  right. apply in_flat_map in H as (c & Hc & H).
  rewrite Forall_forall in IH. rewrite forallb_forall in Hr.
  apply in_map_iff.
  assert (Hstep : forall q',
             q = entry_name c :: q' ->
             (q' = [] \/ In ((prefix ++ [entry_name c]) ++ q')%list
                            (descendants (prefix ++ [entry_name c]) c)) ->
             In (prefix ++ q)%list
                (map fst (walked (prefix ++ [entry_name c]) c))).
  { intros q' -> Hq'. inversion Hk as [|? ? Hkc Hkq']; subst.
    replace (prefix ++ entry_name c :: q')%list
      with ((prefix ++ [entry_name c]) ++ q')%list
      by (rewrite <- app_assoc; reflexivity).
    destruct Hq' as [->|Hq']; [|now apply (IH c Hc (Hr c Hc) Hkc)].
    rewrite app_nil_r. pose proof (Hr c Hc) as Hrc. unfold kept in Hkc.
    destruct c; simpl in *; rewrite Hkc in *; simpl in *;
      (discriminate || now left). }
  assert (Hin : In (prefix ++ q)%list
                   (map fst (walked (prefix ++ [entry_name c]) c))).
  { destruct H as [H|H].
    - apply app_inv_head in H. apply (Hstep []); [now symmetry | now left].
    - destruct (descendants_shape c _ _ H) as (q' & Hq & _).
      rewrite <- app_assoc in Hq. apply app_inv_head in Hq. simpl in Hq.
      apply (Hstep q' Hq). right. rewrite <- app_assoc. simpl.
      now rewrite <- Hq. }
  apply in_map_iff in Hin as ([p' sz'] & Hp & Hin). simpl in Hp. subst p'.
  exists (prefix ++ q, sz')%list. split; [reflexivity|].
  apply in_flat_map. now exists c.
Qed.

(** [**/*] matches every path of proper names. *)
Lemma matchOne_any (path : list string) :
  Forall proper path -> path <> [] ->
  Minimatch.matchOne [Minimatch.GlobStar; Minimatch.Star] path = true.
Proof.
  intros Hp. induction Hp as [|f fs [Hf Hd] Hfs IH]; intros Hne;
    [now elim Hne|].
  rewrite matchOne_globstar, Hd. destruct fs as [|g fs].
  - simpl. rewrite Hd. apply String.eqb_neq in Hf. now rewrite Hf.
  - rewrite IH by discriminate. apply orb_true_r.
Qed.

(** Apart from what lies below a directory named [.gitignore], the walk
    and the archiver leave out the same paths: on a readable tree whose
    root the walk keeps, a listed path in which [.gitignore] is at most the
    last name is counted by the walk exactly when it is stored by the
    archiver. *)
Lemma exclusions_agree_outside_gitignore_directories (t : entry)
      (p : list string) :
  readable t = true -> excluded (entry_name t) = false ->
  In p (descendants [] t) ->
  Forall proper p ->
  (forall pre post, p = (pre ++ ".gitignore" :: post)%list -> post = []) ->
  In p (map fst (walked [] t))
  <-> In p (Minimatch.glob "**/*" ignore_list (descendants [] t)).
Proof.
  intros Hr Hx Hd Hp Hg. unfold Minimatch.glob. rewrite filter_In.
  destruct (descendants_shape t [] p Hd) as (q & Hq & Hne).
  simpl in Hq. subst q.
  change (Minimatch.minimatch "**/*" p)
    with (Minimatch.matchOne [Minimatch.GlobStar; Minimatch.Star] p).
  rewrite (matchOne_any p Hp Hne). simpl.
  rewrite negb_true_iff, <- not_true_iff_false.
  rewrite (isIgnored_ignore_list p Hp). split.
  - intros H. split; [exact Hd|].
    apply walked_segments in H as (q & Hq & Hk). simpl in Hq. subst q.
    rewrite Forall_forall in Hk.
    intros [Hgit|[pre ->]].
    + now apply Hk in Hgit.
    + assert (Hin : In ".gitignore" (pre ++ [".gitignore"])%list)
        by (apply in_or_app; right; now left).
      now apply Hk in Hin.
  - intros [_ Hi]. apply (descendants_walked t Hr Hx [] p Hd).
    apply Forall_forall. intros s Hs. unfold kept, excluded.
    destruct (String.eqb_spec s ".git") as [->|_]; [elim Hi; now left|].
    destruct (String.eqb_spec s ".gitignore") as [->|_]; [|reflexivity].
    elim Hi. right. apply in_split in Hs as (pre & post & ->).
    rewrite (Hg pre post eq_refl). eauto.
Qed.

(** The walk tests the base name of the root too: a workspace directory
    that is itself named [.git] or [.gitignore] has size 0, whatever it
    holds, while the glob, which sees paths relative to the root, stores its
    content. *)
Lemma walk_stops_at_excluded_root (t : entry) :
  excluded (entry_name t) = true ->
  directorySize t = Size 0 /\ walked [] t = [].
Proof.
  intros H. unfold directorySize.
  destruct t; simpl in *; rewrite H; split; reflexivity.
Qed.

(** ** What the walk skips and what the archiver ignores *)

(** C7 fails on a directory named [.gitignore]: the walk stops at it, so
    the file [.gitignore/x] adds nothing to the size, while no pattern of
    the [ignore] list matches that path and the archiver stores it. *)
Theorem exclusion_differs_below_gitignore_directory :
  let t := gitignore_directory_tree in
  ~ In [".gitignore"; "x"] (map fst (walked [] t))
  /\ directorySize t = Size 4106
  /\ Minimatch.isIgnored ignore_list [".gitignore"; "x"] = false
  /\ entries_of t (ArchiveGlob "**/*" "/data/proj" ignore_list)
     = ["main.py"; ".gitignore/x"].
Proof.
  repeat split; try reflexivity.
  vm_compute. intros [H|[H|[]]]; discriminate.
Qed.

(** ** The state poller *)

Lemma check_legal (d : string) :
  In (toLowerCase d) legal_states ->
  check (Some d) = Target (toLowerCase d).
Proof.
  intros H. unfold check.
  destruct (String.eqb_spec d EmptyString) as [->|_].
  - simpl in H. intuition discriminate.
  - simpl in H. destruct H as [H|[H|[H|[]]]]; rewrite <- H; reflexivity.
Qed.

Lemma check_illegal (d : string) :
  ~ In (toLowerCase d) legal_states ->
  exists err, check (Some d) = Rejected err.
Proof.
  intros H. unfold check.
  destruct (String.eqb d EmptyString); [eauto|].
  destruct (String.eqb_spec (toLowerCase d) "ready") as [E|_];
    [elim H; rewrite E; simpl; auto|].
  destruct (String.eqb_spec (toLowerCase d) "serviceready") as [E|_];
    [elim H; rewrite E; simpl; auto|].
  destruct (String.eqb_spec (toLowerCase d) "off") as [E|_];
    [elim H; rewrite E; simpl; auto|].
  simpl. eauto.
Qed.

(** One turn of the poller with a legal target. *)
Lemma waitfor_step (d : string) (r : response) (rest : list response) :
  In (toLowerCase d) legal_states ->
  waitfor (Some d) (r :: rest)
  = Query
      :: match r with
         | Failure err => [Cb (Some err) None]
         | Success m =>
             if reached m (toLowerCase d) then [Cb None m]
             else SetTimeout INTERVAL :: waitfor (Some d) rest
         end.
Proof. intros H. cbn -[check]. rewrite (check_legal d H). reflexivity. Qed.

Lemma reached_iff (m : option machine) (target : string) :
  reached m target = true <-> exists r, m = Some r /\ state r = Some target.
Proof.
  unfold reached. split.
  - destruct m as [r|]; [|discriminate].
    destruct (state r) as [s|] eqn:E; [|discriminate].
    intros H. apply String.eqb_eq in H. subst. eauto.
  - intros (r & -> & ->). apply String.eqb_refl.
Qed.

(** C3, as amended.  With a legal desired state [d], the poller takes a
    queried record as matching exactly when the record exists and its
    [state] is the lower-case form of [d], letter for letter: it then calls
    back with the record, and otherwise sets the timer for the next query.
    The case of the record's own state is not folded. *)
Theorem poller_matches_lowercased_target
        (d : string) (m : option machine) (rest : list response) :
  In (toLowerCase d) legal_states ->
  (waitfor (Some d) (Success m :: rest) = [Query; Cb None m]
   <-> exists r, m = Some r /\ state r = Some (toLowerCase d))
  /\ ((forall r, m = Some r -> state r <> Some (toLowerCase d)) ->
      waitfor (Some d) (Success m :: rest)
      = Query :: SetTimeout 5000 :: waitfor (Some d) rest).
Proof.
  intros H. rewrite (waitfor_step d _ rest H), <- reached_iff.
  destruct (reached m (toLowerCase d)) eqn:E.
  - split; [tauto|]. intros Hne. apply reached_iff in E as (r & Hm & Hs).
    now elim (Hne r).
  - split; [|reflexivity]. split; [discriminate|discriminate].
Qed.

Lemma poller_matches_lowercased_target_witness :
  waitfor (Some "Ready")
          [Success (Some {| id := "ps123abc"; state := Some "ready" |})]
  = [Query; Cb None (Some {| id := "ps123abc"; state := Some "ready" |})].
Proof.
  refine (proj2 (proj1 (poller_matches_lowercased_target
                          "Ready" _ [] _)) _).
  - simpl. auto.
  - eexists. split; reflexivity.
Defined.

(** C3, as first stated, fails: "Off" and "off" are equal when letter case
    is ignored, and the poller does not take a record in state "Off" for
    the desired state "off": it sets the timer and queries again. *)
Lemma poller_does_not_fold_record_state :
  equal_ignoring_case "Off" "off" = true
  /\ waitfor (Some "off")
             [Success (Some {| id := "ps123abc"; state := Some "Off" |})]
     = [Query; SetTimeout 5000; Query].
Proof. split; reflexivity. Qed.

(** C4.  When the desired state is missing, or is a value that is none of
    off, serviceready and ready (states being named without regard to letter
    case), the poller calls back at once with an error and sends no query,
    whatever the server would have answered. *)
Theorem invalid_state_never_queried
        (state : option string) (responses : list response) :
  (forall d, state = Some d -> ~ In (toLowerCase d) legal_states) ->
  exists err,
    waitfor state responses = [Cb (Some err) None]
    /\ queries (waitfor state responses) = 0%nat.
Proof.
  intros H.
  assert (Hc : exists err, check state = Rejected err).
  { destruct state as [d|]; [|simpl; eauto].
    apply check_illegal. now apply H. }
  destruct Hc as [err Hc]. exists err.
  destruct responses; cbn -[check]; rewrite Hc; split; reflexivity.
Qed.

Lemma invalid_state_never_queried_witness :
  exists err,
    waitfor (Some "stopped") [Success None] = [Cb (Some err) None]
    /\ queries (waitfor (Some "stopped") [Success None]) = 0%nat.
Proof.
  apply (invalid_state_never_queried (Some "stopped") [Success None]).
  intros d Hd. injection Hd as <-. simpl.
  intros [H|[H|[H|[]]]]; discriminate.
Defined.

(** A desired state that names a legal one in any letter case is put to
    the server. *)
Lemma legal_state_is_queried (d : string) (responses : list response) :
  In (toLowerCase d) legal_states ->
  exists tail, waitfor (Some d) responses = Query :: tail.
Proof.
  intros H. destruct responses as [|r rest].
  - cbn -[check]. rewrite (check_legal d H). eauto.
  - rewrite (waitfor_step d r rest H). eauto.
Qed.

(** C5.  With a legal desired state, a query that fails ends the polling:
    after any number of answers that did not match, the error of the first
    failed query is handed to the callback and no query follows it, whatever
    the server would have answered next.  The timer for another query is set
    only on an answer that came without error and did not match. *)
Theorem transport_error_ends_polling
        (d : string) (pending : list (option machine))
        (err : error) (rest : list response) :
  In (toLowerCase d) legal_states ->
  (forall m, In m pending -> reached m (toLowerCase d) = false) ->
  let trace := waitfor (Some d) (map Success pending ++ Failure err :: rest) in
  trace = (flat_map (fun _ => [Query; SetTimeout INTERVAL]) pending
             ++ [Query; Cb (Some err) None])%list
  /\ queries trace = S (List.length pending)
  /\ (forall r rest',
         (exists tail,
             waitfor (Some d) (r :: rest')
             = Query :: SetTimeout INTERVAL :: tail)
         <-> exists m, r = Success m /\ reached m (toLowerCase d) = false).
Proof.
  intros H Hp trace.
  assert (Htrace : trace
                   = (flat_map (fun _ => [Query; SetTimeout INTERVAL]) pending
                        ++ [Query; Cb (Some err) None])%list).
  { subst trace. induction pending as [|m pending IH].
    - simpl app. rewrite (waitfor_step d _ rest H). reflexivity.
    - simpl map. simpl app. rewrite (waitfor_step d _ _ H).
      rewrite (Hp m) by (now left).
      rewrite IH by (intros m' Hm'; apply Hp; now right). reflexivity. }
  split; [exact Htrace|]. split.
  - rewrite Htrace. clear. induction pending as [|m pending IH];
      [reflexivity|].
    simpl. unfold queries in *. simpl in *. now rewrite IH.
  - intros r rest'. rewrite (waitfor_step d r rest' H). split.
    + intros [tail E]. destruct r as [e|m]; [discriminate|].
      exists m. split; [reflexivity|].
      destruct (reached m (toLowerCase d)); [discriminate | reflexivity].
    + intros (m & -> & Hm). rewrite Hm. eauto.
Qed.

Lemma transport_error_ends_polling_witness :
  waitfor (Some "ready")
          [Success (Some {| id := "ps123abc"; state := Some "off" |});
           Success None;
           Failure (Error "ECONNRESET");
           Success (Some {| id := "ps123abc"; state := Some "ready" |})]
  = [Query; SetTimeout 5000; Query; SetTimeout 5000; Query;
     Cb (Some (Error "ECONNRESET")) None].
Proof.
  refine (proj1 (transport_error_ends_polling
                   "ready"
                   [Some {| id := "ps123abc"; state := Some "off" |}; None]
                   (Error "ECONNRESET")
                   [Success (Some {| id := "ps123abc";
                                     state := Some "ready" |})] _ _)).
  - simpl. auto.
  - intros m [<-|[<-|[]]]; reflexivity.
Defined.

(** C6.  With the desired state "off" and a server that answers a record
    in state "starting" and then one in state "off", the poller sends two
    queries, the second after the answer to the first and a timer of 5000
    ms set on that answer, and calls back with the second record. *)
Theorem off_after_starting (id1 id2 : string) (rest : list response) :
  let first := {| id := id1; state := Some "starting" |} in
  let second := {| id := id2; state := Some "off" |} in
  let trace := waitfor (Some "off")
                       (Success (Some first) :: Success (Some second) :: rest) in
  trace = [Query; SetTimeout 5000; Query; Cb None (Some second)]
  /\ queries trace = 2%nat
  /\ INTERVAL = 5000.
Proof. repeat split. Qed.

(* ================================================================== *)
(** * Further properties *)

Import Notions.

(** ** Home-directory expansion, continued *)

Lemma isAbsolute_slash (x : string) : Path.isAbsolute (String "/" x) = true.
Proof. destruct x; reflexivity. Qed.

Lemma isAbsolute_inv (p : string) :
  Path.isAbsolute p = true -> exists x, p = String "/" x.
Proof.
  destruct p as [|c x]; [intros H; compute in H; discriminate|].
  unfold Path.isAbsolute, startsWith.
  change (String.prefix "/" (String c x))
    with (if Ascii.ascii_dec "/" c then String.prefix EmptyString x else false).
  destruct (Ascii.ascii_dec "/" c) as [<-|]; [eauto | discriminate].
Qed.

Lemma normalize_absolute (p : string) :
  Path.isAbsolute p = true -> Path.isAbsolute (Path.normalize p) = true.
Proof.
  intros H. unfold Path.normalize.
  destruct (String.eqb_spec p EmptyString) as [->|_];
    [compute in H; discriminate|].
  rewrite H. simpl.
  destruct (String.eqb (Path.normalizeString p false) EmptyString);
    [reflexivity | apply isAbsolute_slash].
Qed.

Lemma join_absolute (h rest : string) :
  Path.isAbsolute h = true -> Path.isAbsolute (Path.join h rest) = true.
Proof.
  intros H. destruct (isAbsolute_inv h H) as [x ->]. unfold Path.join.
  change (String.eqb (String "/" x) EmptyString) with false.
  destruct (String.eqb rest EmptyString); apply normalize_absolute;
    apply isAbsolute_slash.
Qed.

(** X1.  When the home directory is an absolute path, whatever
    [expandHomeDir] returns is left unchanged by a second expansion, and an
    expanded "~" or "~/..." is an absolute path. *)
Theorem expandHomeDir_idempotent (proc : process) (h : string)
        (pathIn result : option string) :
  env proc (if String.eqb (platform proc) "win32"
            then "USERPROFILE" else "HOME") = Some h ->
  Path.isAbsolute h = true ->
  expandHomeDir proc pathIn = Ret result ->
  expandHomeDir proc result = Ret result
  /\ (forall p, pathIn = Some p ->
                (p = "~" \/ startsWith p "~/" = true) ->
                exists q, result = Some q /\ Path.isAbsolute q = true).
Proof.
  intros Hh Habs H.
  assert (Hfix : forall q, Path.isAbsolute q = true ->
                           expandHomeDir proc (Some q) = Ret (Some q)).
  { intros q Hq. destruct (isAbsolute_inv q Hq) as [x ->].
    unfold expandHomeDir. destruct x as [|c' x]; reflexivity. }
  unfold expandHomeDir in H. rewrite Hh in H.
  destruct pathIn as [p|]; [|injection H as <-; split; [reflexivity|]; intros; discriminate].
  destruct (String.eqb_spec p EmptyString) as [->|Hne].
  { injection H as <-. split; [reflexivity|].
    intros p [= <-] [Hp|Hp]; [discriminate | compute in Hp; discriminate]. }
  destruct (String.eqb_spec p "~") as [->|Hnt].
  { injection H as <-. split; [now apply Hfix|].
    intros p _ _. eauto. }
  destruct (String.eqb (slice_0_2 p) "~/") eqn:E; simpl in H; injection H as <-.
  - pose proof (join_absolute h (slice_2 p) Habs) as Hj.
    split; [now apply Hfix|]. intros p' _ _. eauto.
  - split.
    + unfold expandHomeDir. rewrite Hh.
      apply String.eqb_neq in Hne, Hnt. now rewrite Hne, Hnt, E.
    + intros p' [= <-] [->|Hp]; [now elim Hnt|].
      exfalso. unfold startsWith in Hp. apply prefix_correct in Hp.
      change (slice_0_2 p = "~/") in Hp. rewrite Hp in E. discriminate.
Qed.

Lemma expandHomeDir_idempotent_witness :
  expandHomeDir proc_linux (Some "/home/u/proj/data")
  = Ret (Some "/home/u/proj/data").
Proof.
  refine (proj1 (expandHomeDir_idempotent
                   proc_linux "/home/u" (Some "~/proj/./data")
                   (Some "/home/u/proj/data") _ _ _)); reflexivity.
Defined.

(** ** The directory size walk, continued *)

Lemma async_map_sizes_error (rs : list walk_result) :
  In IOError rs -> async_map_sizes rs = None.
Proof.
  induction rs as [|r rs IH]; intros H; [contradiction|].
  destruct r as [n|]; [|reflexivity].
  destruct H as [H|H]; [discriminate|]. simpl. now rewrite IH.
Qed.

Lemma directorySize_from_unreadable (e : entry) :
  readable e = false -> forall size, directorySize_from size e = IOError.
Proof.
  induction e as [name sz|name sz children IH|name|name sz]
    using entry_induction; intros Hr size; simpl in *;
    destruct (excluded name); simpl in *; try discriminate;
    try reflexivity.
  rewrite async_map_sizes_error; [reflexivity|].
  induction children as [|c cs IHcs]; [discriminate|].
  simpl in Hr. inversion IH as [|? ? Pc Pcs]; subst.
  destruct (readable c) eqn:Ec; simpl in Hr.
  - right. now apply IHcs.
  - left. now apply Pc.
Qed.

(** X2.  The walk has no partial result: it ends in an error exactly when
    some entry it reaches cannot be read, that is a listed entry whose
    [stat] fails or a directory whose listing fails, at any depth; what lies
    at or below an entry named [.git] or [.gitignore] is never touched and
    cannot make it fail. *)
Theorem directorySize_fails_iff_unreadable (t : entry) :
  (directorySize t = IOError <-> readable t = false)
  /\ (excluded (entry_name t) = true -> directorySize t = Size 0).
Proof.
  split; [split|].
  - intros H. destruct (readable t) eqn:Hr; [|reflexivity].
    unfold directorySize in H.
    rewrite (directorySize_from_walked t Hr 0 []) in H. discriminate.
  - intros Hr. now apply directorySize_from_unreadable.
  - intros H. unfold directorySize. destruct t; simpl in *; now rewrite H.
Qed.

Lemma directorySize_fails_iff_unreadable_witness :
  directorySize (Dir "proj" 4096 [File "a" 10; Dir "src" 4096 [Vanished "tmp"]])
  = IOError
  /\ directorySize (Dir "proj" 4096 [File "a" 10; Dir ".git" 4096 [Vanished "tmp"]])
     = Size 4106.
Proof.
  split.
  - apply (proj1 (directorySize_fails_iff_unreadable _)). reflexivity.
  - reflexivity.
Defined.

(** X3.  On a readable tree the result is the total size of the regular
    files outside excluded names plus the [stat] sizes of the directories
    reached; it is the total of the files alone exactly when those
    directory sizes add up to zero. *)
Theorem directorySize_files_and_directories (t : entry) :
  readable t = true ->
  directorySize t = Size (files_total t + dirs_total t)
  /\ (directorySize t = Size (files_total t) <-> dirs_total t = 0).
Proof.
  intros Hr.
  assert (H : forall e, readable e = true ->
                        forall size,
                          directorySize_from size e
                          = Size (size + (files_total e + dirs_total e))).
  { clear. intros e.
    induction e as [name sz|name sz children IH|name|name sz]
      using entry_induction; intros Hr size; simpl in *;
      destruct (excluded name); simpl in *; try discriminate;
      try (f_equal; lia).
    assert (Hmap : async_map_sizes (map (directorySize_from 0) children)
                   = Some (map (fun c => files_total c + dirs_total c)
                               children)).
    { induction children as [|c cs IHcs]; [reflexivity|].
      simpl in Hr. apply andb_prop in Hr as [Hc Hcs].
      inversion IH as [|? ? Pc Pcs]; subst. simpl.
      rewrite (Pc Hc 0), (IHcs Pcs Hcs). reflexivity. }
    rewrite Hmap, reduce_add_sum. f_equal.
    assert (Hsum : sumZ (map (fun c => files_total c + dirs_total c) children)
                   = sumZ (map files_total children)
                     + sumZ (map dirs_total children)).
    { clear. induction children as [|c cs IHcs]; simpl; lia. }
    lia. }
  unfold directorySize. rewrite (H t Hr 0). split; [f_equal; lia|].
  split; [intros [= E]; lia | intros E; f_equal; lia].
Qed.

Lemma directorySize_files_and_directories_witness :
  directorySize project_tree = Size (30 + 4096).
Proof.
  apply (proj1 (directorySize_files_and_directories project_tree eq_refl)).
Defined.

(** ** The run of [create] as a whole *)

(** Whatever holds of the console errors, of the bar when there is one, of
    an uncaught exception and of what ['close'] does, holds of all the
    handlers do. *)
Lemma handle_forall (P : action -> bool) w json ws st zip_file total events :
  (forall text, P (ConsoleError text) = true) ->
  (forall label err, P (ConsoleErrorObject label err) = true) ->
  (forall err, P (Uncaught err) = true) ->
  ((isDirectory st && interactive w json)%bool = true ->
   forall label t c, P (BarNew label t) = true /\ P (BarTick c) = true) ->
  forallb P (on_close w json zip_file) = true ->
  forall bar prev,
    forallb P (handle w json ws st zip_file total bar prev events) = true.
Proof.
  intros Herr Hobj Hun Hbar Hclose.
  induction events as [|ev events IH]; intros bar prev; simpl;
    [reflexivity|].
  destruct ev as [err|err|bytes|].
  - destruct (code err) as [c|]; [destruct (String.eqb c "ENOENT")|];
      simpl; rewrite ?Herr, ?Hun, ?IH; reflexivity.
  - simpl. now rewrite Hobj, IH.
  - destruct (isDirectory st && interactive w json)%bool eqn:E; [|apply IH].
    rewrite forallb_app. apply andb_true_intro. split.
    + destruct bar; [reflexivity|]. cbn [forallb].
      now rewrite (proj1 (Hbar eq_refl _ total 0)).
    + cbn [forallb].
      now rewrite (proj2 (Hbar eq_refl EmptyString None _)), IH.
  - exact Hclose.
Qed.

Lemma ends_once_app (l r : list action) :
  forallb (fun a => negb (terminal a)) l = true ->
  ends_once (l ++ r) = ends_once r.
Proof.
  induction l as [|a l IH]; intros H; [reflexivity|].
  simpl in *. apply andb_prop in H as [Ha Hl].
  apply negb_true_iff in Ha. rewrite Ha. now apply IH.
Qed.

Lemma ends_once_last (trace pre post : list action) (a : action) :
  ends_once trace = true -> trace = (pre ++ a :: post)%list ->
  terminal a = true ->
  post = [] /\ forallb (fun b => negb (terminal b)) pre = true.
Proof.
  intros H -> Ha. induction pre as [|b pre IH]; simpl in *.
  - rewrite Ha in H. destruct post; [auto | discriminate].
  - destruct (terminal b) eqn:Eb.
    + destruct pre; discriminate.
    + simpl. now apply IH.
Qed.

Lemma ifCliPrintErrorOnly_ends_once w json err :
  ends_once (ifCliPrintErrorOnly w json err) = true.
Proof. unfold ifCliPrintErrorOnly. destruct (interactive w json); reflexivity. Qed.

Lemma handle_ends_once w json ws st zip_file total events :
  forall bar prev,
    ends_once (handle w json ws st zip_file total bar prev events) = true.
Proof.
  induction events as [|ev events IH]; intros bar prev; simpl;
    [reflexivity|].
  destruct ev as [err|err|bytes|].
  - destruct (code err) as [c|]; [destruct (String.eqb c "ENOENT")|];
      simpl; auto.
  - simpl. auto.
  - destruct (isDirectory st && interactive w json)%bool; [|auto].
    rewrite ends_once_app by (destruct bar; reflexivity). simpl. auto.
  - unfold on_close. destruct (zipped w) as [size|]; [|reflexivity].
    destruct (size >? MAX_UPLOAD_SIZE); [|reflexivity].
    apply ifCliPrintErrorOnly_ends_once.
Qed.

(** X4.  A run of [create] settles at most once: the remote call, a call
    of the callback or an uncaught exception is the last thing it does, so
    it never both reports an error and makes the remote call, and never
    calls the callback twice. *)
Theorem create_settles_once (w : world) (json : bool) (workspace : string)
        (pre post : list action) (a : action) :
  create w json workspace = (pre ++ a :: post)%list ->
  terminal a = true ->
  post = [] /\ forallb (fun b => negb (terminal b)) pre = true.
Proof.
  apply ends_once_last. unfold create.
  destruct (String.eqb workspace "/");
    [apply ifCliPrintErrorOnly_ends_once|].
  destruct (negb (String.eqb workspace "none")
            && negb (startsWith workspace "https://")
            && negb (startsWith workspace "git+https://"))%bool;
    [|reflexivity].
  destruct (expandHomeDir (proc w) (Some workspace)) as [[ws|]|msg];
    [|apply ifCliPrintErrorOnly_ends_once|reflexivity].
  destruct (stat w ws) as [st|]; [|apply ifCliPrintErrorOnly_ends_once].
  destruct (negb (isDirectory st) && negb (isFile st))%bool;
    [apply ifCliPrintErrorOnly_ends_once|].
  destruct (negb (endsWith ws ".zip") && negb (endsWith ws ".gz"))%bool.
  - rewrite ends_once_app
      by (destruct (existsSync w _); reflexivity).
    destruct (isDirectory st) eqn:Ed.
    + unfold zipFunc. rewrite Ed. simpl. apply handle_ends_once.
    + rewrite ends_once_app by (destruct (interactive w json); reflexivity).
      unfold zipFunc. rewrite Ed. simpl. apply handle_ends_once.
  - destruct (st_size st >? MAX_UPLOAD_SIZE); [|reflexivity].
    apply ifCliPrintErrorOnly_ends_once.
Qed.

Lemma create_settles_once_witness :
  forallb (fun b => negb (terminal b))
          [CreateWriteStream "/tmp/notes.txt.zip";
           ArchiveFile "/data/notes.txt" "notes.txt";
           ArchiveFinalize; ConsoleError "ENOENT"] = true.
Proof.
  refine (proj2 (create_settles_once
                   (sample_world 0 [EvWarning gone; EvClose; EvClose] (Some 9))
                   false "/data/notes.txt" _ []
                   (Invoke (Some "/tmp/notes.txt.zip") (Some "notes.txt.zip"))
                   _ _)); reflexivity.
Defined.

(** What holds of every error report, of every remote call and of what the
    handlers do holds of the whole run. *)
Lemma create_forall (P : action -> bool) w json workspace :
  (forall err, forallb P (ifCliPrintErrorOnly w json err) = true) ->
  (forall f n, P (Invoke f n) = true) ->
  (forall text, P (ConsoleError text) = true) ->
  (forall label err, P (ConsoleErrorObject label err) = true) ->
  (forall err, P (Uncaught err) = true) ->
  (forall f, P (Unlink f) = true) ->
  (forall f, P (CreateWriteStream f) = true) ->
  (forall p c i, P (ArchiveGlob p c i) = true) ->
  (forall s n, P (ArchiveFile s n) = true) ->
  P ArchiveFinalize = true ->
  (interactive w json = true ->
   (forall text, P (ConsoleLog text) = true)
   /\ (forall label t, P (BarNew label t) = true)
   /\ (forall c, P (BarTick c) = true)) ->
  forallb P (create w json workspace) = true.
Proof.
  intros Herr Hinv Hce Hobj Hun Hul Hcw Hag Haf Hfin Hint.
  assert (Hzip : forall ws st zf total,
             forallb P (zipFunc w json ws st zf total) = true).
  { intros ws st zf total. unfold zipFunc. cbn [forallb].
    rewrite Hcw, Hfin.
    replace (P (if isDirectory st
                then ArchiveGlob "**/*" ws ignore_list
                else ArchiveFile ws (Path.basename ws))) with true
      by (destruct (isDirectory st); auto).
    simpl. apply handle_forall; auto.
    - intros E. apply andb_prop in E as [_ E].
      destruct (Hint E) as (_ & Hb & Ht). auto.
    - unfold on_close. destruct (zipped w) as [size|];
        [|cbn [forallb]; now rewrite Hun].
      destruct (size >? MAX_UPLOAD_SIZE); [apply Herr|].
      cbn [forallb]. now rewrite Hinv. }
  unfold create.
  destruct (String.eqb workspace "/"); [apply Herr|].
  destruct (negb (String.eqb workspace "none")
            && negb (startsWith workspace "https://")
            && negb (startsWith workspace "git+https://"))%bool;
    [|cbn [forallb]; now rewrite Hinv].
  destruct (expandHomeDir (proc w) (Some workspace)) as [[ws|]|msg];
    [|apply Herr|cbn [forallb]; now rewrite Hun].
  destruct (stat w ws) as [st|]; [|apply Herr].
  destruct (negb (isDirectory st) && negb (isFile st))%bool; [apply Herr|].
  destruct (negb (endsWith ws ".zip") && negb (endsWith ws ".gz"))%bool.
  - rewrite forallb_app. apply andb_true_intro. split.
    + destruct (existsSync w _); [cbn [forallb]; now rewrite Hul|reflexivity].
    + destruct (isDirectory st); [apply Hzip|].
      rewrite forallb_app, Hzip.
      destruct (interactive w json) eqn:E; [|reflexivity].
      cbn [forallb]. destruct (Hint eq_refl) as (Hl & _). now rewrite Hl.
  - destruct (st_size st >? MAX_UPLOAD_SIZE); [apply Herr|].
    cbn [forallb]. now rewrite Hinv.
Qed.

(** X5.  In interactive mode (command line, no [json]) this stage of
    [create] never hands an error to the callback: it prints the message and
    calls the callback plainly.  Outside interactive mode it writes nothing
    to the standard output - no message, no progress bar - and never calls
    the callback without an error. *)
Theorem create_reports_by_mode (w : world) (json : bool) (workspace : string) :
  (interactive w json = true ->
   forallb (fun a => negb (callback_error a)) (create w json workspace) = true)
  /\ (interactive w json = false ->
      forallb (fun a => negb (to_stdout a) && negb (callback_plain a))%bool
              (create w json workspace) = true).
Proof.
  split; intros Hi; apply create_forall; try reflexivity;
    try (intros; reflexivity);
    try (intros err; unfold ifCliPrintErrorOnly; rewrite Hi; reflexivity).
  - intros _. repeat split.
  - intros E. congruence.
Qed.

Lemma create_reports_by_mode_witness :
  forallb (fun a => negb (to_stdout a) && negb (callback_plain a))%bool
          (create (sample_world 104857601 [] None) true "/data/ws.zip") = true.
Proof.
  refine (proj2 (create_reports_by_mode
                   (sample_world 104857601 [] None) true "/data/ws.zip") _).
  reflexivity.
Defined.

(** ** Where the archive is written *)

Lemma string_append_assoc (a b c : string) : (a ++ b) ++ c = a ++ (b ++ c).
Proof. induction a as [|x a IH]; simpl; [reflexivity | now rewrite IH]. Qed.

Lemma split_aux_plain (l cur : list ascii) :
  (forall c, In c l -> c <> "/"%char) ->
  Path.split_aux cur l = [str (rev cur ++ l)].
Proof.
  revert cur. induction l as [|c l IH]; intros cur H; simpl.
  - now rewrite app_nil_r.
  - unfold Path.is_sep. destruct (Ascii.eqb_spec c "/") as [->|_].
    + exfalso. apply (H "/"%char); [now left | reflexivity].
    + rewrite IH by (intros; apply H; now right).
      simpl. now rewrite <- app_assoc.
Qed.

Lemma split_aux_sep (l r cur : list ascii) :
  Path.split_aux cur (l ++ "/"%char :: r)
  = (Path.split_aux cur l ++ Path.split_aux [] r)%list.
Proof.
  revert cur. induction l as [|c l IH]; intros cur; simpl; [reflexivity|].
  destruct (Path.is_sep c); simpl; now rewrite IH.
Qed.

(** The segments of [dir/name] are those of [dir] and then [name]. *)
Lemma split_last (dir name : string) :
  no_separator name ->
  Path.split (dir ++ "/" ++ name) = (Path.split dir ++ [name])%list.
Proof.
  intros H. unfold Path.split. rewrite chars_append. simpl.
  change (chars (String "/" name)) with ("/"%char :: chars name).
  rewrite split_aux_sep, (split_aux_plain (chars name) []) by exact H.
  simpl. now rewrite str_chars.
Qed.

(** A last segment that is an ordinary name stays last. *)
Lemma normalize_segs_last (above : bool) (name : string)
      (segs acc : list string) :
  String.eqb name EmptyString = false -> String.eqb name "." = false ->
  String.eqb name ".." = false ->
  exists kept,
    Path.normalize_segs above acc (segs ++ [name]) = (kept ++ [name])%list.
Proof.
  intros H0 H1 H2. revert acc.
  induction segs as [|s segs IH]; intros acc; simpl.
  - rewrite H0, H1, H2. simpl. exists (rev acc). reflexivity.
  - destruct (String.eqb s EmptyString || String.eqb s ".")%bool; [apply IH|].
    destruct (String.eqb s ".."); [|apply IH].
    destruct acc as [|top below]; [apply IH|].
    destruct (String.eqb top ".."); apply IH.
Qed.

Lemma concat_last (l : list string) (name : string) :
  exists dir, String.concat "/" (l ++ [name]) = dir ++ name
              /\ (dir = EmptyString \/ exists d, dir = d ++ "/").
Proof.
  induction l as [|s l IH]; simpl.
  - exists EmptyString. auto.
  - destruct IH as (dir & E & Hd).
    destruct (l ++ [name])%list as [|x r] eqn:El;
      [destruct l; discriminate|].
    rewrite E. exists (s ++ "/" ++ dir). split.
    + rewrite ?string_append_assoc. reflexivity.
    + right. destruct Hd as [->|[d ->]].
      * exists s. rewrite ?string_append_assoc. reflexivity.
      * exists (s ++ "/" ++ d). rewrite ?string_append_assoc. reflexivity.
Qed.

(** The archive built for a workspace is named after it: the base name of
    the path [create] writes to is the base name of the workspace followed
    by ".zip". *)
Lemma zip_path_basename (w : world) (ws : string) :
  Path.basename (zip_path w ws) = Path.basename ws ++ ".zip".
Proof.
  set (name := Path.basename ws ++ ".zip").
  assert (Hns : no_separator name).
  { intros c Hc. unfold name in Hc. rewrite chars_append in Hc.
    apply in_app_or in Hc as [Hc|Hc].
    - now apply basename_no_separator in Hc.
    - simpl in Hc. intuition (subst; discriminate). }
  assert (Hlen : (4 <= String.length name)%nat).
  { unfold name. clear. induction (Path.basename ws) as [|c s IH]; simpl;
      [apply le_n | apply le_S, IH]. }
  assert (H0 : String.eqb name EmptyString = false)
    by (apply String.eqb_neq; intros E; rewrite E in Hlen; simpl in Hlen; lia).
  assert (H1 : String.eqb name "." = false)
    by (apply String.eqb_neq; intros E; rewrite E in Hlen; simpl in Hlen; lia).
  assert (H2 : String.eqb name ".." = false)
    by (apply String.eqb_neq; intros E; rewrite E in Hlen; simpl in Hlen; lia).
  assert (Hrel : Path.isAbsolute name = false).
  { destruct (Path.isAbsolute name) eqn:E; [|reflexivity].
    apply isAbsolute_inv in E as [x E]. exfalso.
    apply (Hns "/"%char); [rewrite E; now left | reflexivity]. }
  unfold zip_path, Path.resolve. fold name. rewrite Hrel.
  assert (Hgen : forall dir,
             Path.basename ("/" ++ Path.normalizeString (dir ++ "/" ++ name) false)
             = name).
  { intros dir. unfold Path.normalizeString. rewrite split_last by exact Hns.
    destruct (normalize_segs_last false name (Path.split dir) [] H0 H1 H2)
      as [kept ->].
    destruct (concat_last kept name) as (d & -> & Hd).
    destruct Hd as [->|[d' ->]].
    - change ("/" ++ EmptyString ++ name) with (EmptyString ++ "/" ++ name).
      apply basename_last_component; [|exact Hns].
      intros E. rewrite E in H0. discriminate.
    - replace ("/" ++ (d' ++ "/") ++ name) with (("/" ++ d') ++ "/" ++ name)
        by (rewrite ?string_append_assoc; reflexivity).
      apply basename_last_component; [|exact Hns].
      intros E. rewrite E in H0. discriminate. }
  destruct (Path.isAbsolute (tmpdir w)); [apply Hgen|].
  replace (cwd (proc w) ++ "/" ++ tmpdir w ++ "/" ++ name)
    with ((cwd (proc w) ++ "/" ++ tmpdir w) ++ "/" ++ name)
    by (rewrite ?string_append_assoc; reflexivity).
  apply Hgen.
Qed.

(** A remote call made from the handlers names the file it uploads. *)
Lemma handle_invoke_name w json ws st zip_file total events :
  forall bar prev f n,
    In (Invoke f n) (handle w json ws st zip_file total bar prev events) ->
    n = Some (Path.basename zip_file).
Proof.
  intros bar prev f n H.
  pose (P := fun a => match a with
                      | Invoke _ (Some x) => String.eqb x (Path.basename zip_file)
                      | Invoke _ None => false
                      | _ => true
                      end).
  assert (HP : forallb P (handle w json ws st zip_file total bar prev events)
               = true).
  { apply handle_forall; try reflexivity; try (intros; split; reflexivity).
    unfold on_close. destruct (zipped w) as [size|]; [|reflexivity].
    destruct (size >? MAX_UPLOAD_SIZE).
    - unfold ifCliPrintErrorOnly. destruct (interactive w json); reflexivity.
    - simpl. now rewrite String.eqb_refl. }
  rewrite forallb_forall in HP. apply HP in H. simpl in H.
  destruct n as [x|]; [|discriminate]. apply String.eqb_eq in H. now subst.
Qed.

(** X6.  What [create] sends to the server.  Without a local workspace
    ("none" or a link) no file is uploaded, and the file name sent is the
    link itself or nothing.  Otherwise the file uploaded is the workspace
    itself when it is a zip or gzip file, sent under its base name, or the
    archive built in the temporary directory, sent under the base name of
    the workspace followed by ".zip". *)
Theorem create_sends (w : world) (json : bool) (workspace : string)
        (f n : option string) :
  In (Invoke f n) (create w json workspace) ->
  (f = None
   /\ n = (if is_link workspace then Some workspace else None)
   /\ (workspace = "none" \/ is_link workspace = true))
  \/ (exists ws,
         expandHomeDir (proc w) (Some workspace) = Ret (Some ws)
         /\ ((is_archive ws = true /\ f = Some ws
              /\ n = Some (Path.basename ws))
             \/ (is_archive ws = false /\ f = Some (zip_path w ws)
                 /\ n = Some (Path.basename ws ++ ".zip")))).
Proof.
  intros H. unfold create in H.
  destruct (String.eqb workspace "/");
    [now apply ifCliPrintErrorOnly_no_invoke in H|].
  destruct (String.eqb_spec workspace "none") as [Hn|Hn];
    cbn [negb andb] in H.
  { left. destruct H as [H|[]]. injection H as <- <-. auto. }
  destruct (startsWith workspace "https://") eqn:E1; cbn [negb andb] in H.
  { left. destruct H as [H|[]]. injection H as <- <-.
    unfold is_link. rewrite E1. auto. }
  destruct (startsWith workspace "git+https://") eqn:E2;
    cbn [negb andb] in H.
  { left. destruct H as [H|[]]. injection H as <- <-.
    unfold is_link. rewrite E1, E2. auto. }
  right.
  destruct (expandHomeDir (proc w) (Some workspace)) as [[ws|]|msg];
    [| now apply ifCliPrintErrorOnly_no_invoke in H
     | destruct H as [H|[]]; discriminate].
  exists ws. split; [reflexivity|].
  destruct (stat w ws) as [st|];
    [|now apply ifCliPrintErrorOnly_no_invoke in H].
  destruct (negb (isDirectory st) && negb (isFile st))%bool;
    [now apply ifCliPrintErrorOnly_no_invoke in H|].
  unfold is_archive. rewrite <- negb_orb in H.
  destruct (endsWith ws ".zip" || endsWith ws ".gz")%bool;
    cbn [negb] in H.
  - left. destruct (st_size st >? MAX_UPLOAD_SIZE);
      [now apply ifCliPrintErrorOnly_no_invoke in H|].
    destruct H as [H|[]]. injection H as <- <-. auto.
  - right. fold (zip_path w ws) in H.
    assert (Hz : exists st' total,
               In (Invoke f n)
                  (handle w json ws st' (zip_path w ws) total false 0
                          (emitted w))).
    { assert (Hzf : forall total,
                 In (Invoke f n) (zipFunc w json ws st (zip_path w ws) total) ->
                 In (Invoke f n)
                    (handle w json ws st (zip_path w ws) total false 0
                            (emitted w))).
      { intros total [Hx|[Hx|[Hx|Hx]]]; try discriminate; [|exact Hx].
        destruct (isDirectory st); discriminate. }
      apply in_app_or in H as [H|H].
      - destruct (existsSync w (zip_path w ws));
          [destruct H as [H|[]]; discriminate | contradiction].
      - destruct (isDirectory st); [eauto|].
        apply in_app_or in H as [H|H]; [|eauto].
        destruct (interactive w json);
          [destruct H as [H|[]]; discriminate | contradiction]. }
    destruct Hz as (st' & total & Hz).
    destruct (handle_invoke _ _ _ _ _ _ _ _ _ _ _ Hz) as [-> _].
    apply handle_invoke_name in Hz. rewrite zip_path_basename in Hz.
    auto.
Qed.

Lemma create_sends_witness :
  exists ws,
    expandHomeDir (proc (sample_world 0 [EvClose] (Some 300)))
                  (Some "/data/notes.txt") = Ret (Some ws)
    /\ Some "/tmp/notes.txt.zip" = Some (zip_path (sample_world 0 [EvClose] (Some 300)) ws)
    /\ Some "notes.txt.zip" = Some (Path.basename ws ++ ".zip").
Proof.
  destruct (create_sends (sample_world 0 [EvClose] (Some 300)) false
                         "/data/notes.txt"
                         (Some "/tmp/notes.txt.zip") (Some "notes.txt.zip"))
    as [(Hf & _)|(ws & Hws & [(_ & Hf & Hn)|(_ & Hf & Hn)])].
  - simpl. auto 10.
  - discriminate.
  - exfalso. injection Hws as <-. discriminate.
  - exists ws. auto.
Defined.

(** The ways a run of [create] can go. *)
Lemma create_inv (w : world) (json : bool) (workspace : string) :
  (exists err, create w json workspace = ifCliPrintErrorOnly w json err)
  \/ (exists err, create w json workspace = [Uncaught err])
  \/ (exists n, create w json workspace = [Invoke None n])
  \/ (exists ws st,
         local_path workspace
         /\ expandHomeDir (proc w) (Some workspace) = Ret (Some ws)
         /\ stat w ws = Some st /\ st_kind st <> IsOther).
Proof.
  unfold create.
  destruct (String.eqb_spec workspace "/") as [Hr|Hr]; [eauto|].
  destruct (String.eqb_spec workspace "none") as [Hn|Hn]; cbn [negb andb];
    [eauto 6|].
  destruct (startsWith workspace "https://") eqn:E1; cbn [negb andb];
    [eauto 6|].
  destruct (startsWith workspace "git+https://") eqn:E2; cbn [negb andb];
    [eauto 6|].
  destruct (expandHomeDir (proc w) (Some workspace)) as [[ws|]|msg] eqn:Ex;
    [|eauto|eauto 6].
  destruct (stat w ws) as [st|] eqn:Es; [|eauto].
  destruct (negb (isDirectory st) && negb (isFile st))%bool eqn:Ek; [eauto|].
  right. right. right. exists ws, st. repeat split; auto.
  intros K. unfold isDirectory, isFile in Ek. rewrite K in Ek. discriminate.
Qed.

Lemma handle_no_disk_change w json ws st zip_file total events :
  forall bar prev,
    forallb (fun a => match a with
                      | Unlink _ | CreateWriteStream _ => false
                      | _ => true
                      end)
            (handle w json ws st zip_file total bar prev events) = true.
Proof.
  intros bar prev. apply handle_forall; try reflexivity;
    try (intros; split; reflexivity).
  unfold on_close. destruct (zipped w) as [size|]; [|reflexivity].
  destruct (size >? MAX_UPLOAD_SIZE); [|reflexivity].
  unfold ifCliPrintErrorOnly. destruct (interactive w json); reflexivity.
Qed.

Lemma zip_path_not_workspace (w : world) (ws : string) : zip_path w ws <> ws.
Proof.
  intros E. pose proof (zip_path_basename w ws) as H. rewrite E in H.
  assert (Hl : String.length (Path.basename ws)
               = String.length (Path.basename ws ++ ".zip"))
    by (now rewrite <- H).
  clear - Hl. induction (Path.basename ws) as [|c s IH]; simpl in Hl;
    [discriminate | injection Hl as Hl; auto].
Qed.

(** X7.  Whatever [create] asks [fs.unlinkSync] or [fs.createWriteStream]
    for, it asks for one path, that of the archive it builds, which is never
    the workspace; it asks [fs.unlinkSync] only when a file is there, and
    before anything else.  This is about the calls made, whether or not
    they succeed, and not about what the project configuration stores once
    the server has answered. *)
Theorem create_unlinks_and_opens_the_archive_only (w : world) (json : bool)
        (workspace : string) :
  forall f,
    In (Unlink f) (create w json workspace)
    \/ In (CreateWriteStream f) (create w json workspace) ->
    exists ws,
      expandHomeDir (proc w) (Some workspace) = Ret (Some ws)
      /\ f = zip_path w ws /\ f <> ws
      /\ (In (Unlink f) (create w json workspace) -> existsSync w f = true)
      /\ (existsSync w f = true ->
          exists rest, create w json workspace = Unlink f :: rest).
Proof.
  intros f H.
  destruct (create_inv w json workspace)
    as [[err E]|[[err E]|[[n E]|(ws & st & Hloc & Hex & Hst & Hk)]]].
  - exfalso. rewrite E in H. unfold ifCliPrintErrorOnly in H.
    destruct (interactive w json); simpl in H;
      repeat (destruct H as [H|H]; try discriminate; try contradiction).
  - exfalso. rewrite E in H. simpl in H.
    repeat (destruct H as [H|H]; try discriminate; try contradiction).
  - exfalso. rewrite E in H. simpl in H.
    repeat (destruct H as [H|H]; try discriminate; try contradiction).
  - exists ws. split; [exact Hex|].
    rewrite (create_local w json workspace ws st Hloc Hex Hst Hk) in *.
    destruct (is_archive ws).
    { exfalso. destruct (st_size st >? MAX_UPLOAD_SIZE).
      - unfold ifCliPrintErrorOnly in H.
        destruct (interactive w json); simpl in H;
          repeat (destruct H as [H|H]; try discriminate; try contradiction).
      - simpl in H.
        repeat (destruct H as [H|H]; try discriminate; try contradiction). }
    set (zf := zip_path w ws) in *.
    set (body := if isDirectory st
                 then zipFunc w json ws st zf
                        (walk_total (directorySize (tree w ws)))
                 else ((if interactive w json
                        then [ConsoleLog ("Zipping file " ++ Path.basename ws)]
                        else [])
                         ++ zipFunc w json ws st zf (Some (st_size st)))%list)
      in *.
    assert (Hbody : In (CreateWriteStream zf) body
                    /\ forall g, (In (Unlink g) body -> False)
                                 /\ (In (CreateWriteStream g) body -> g = zf)).
    { assert (Hz : forall total,
                 In (CreateWriteStream zf) (zipFunc w json ws st zf total)
                 /\ forall g,
                     (In (Unlink g) (zipFunc w json ws st zf total) -> False)
                     /\ (In (CreateWriteStream g)
                            (zipFunc w json ws st zf total) -> g = zf)).
      { intros total. unfold zipFunc. split; [now left|].
        pose proof (handle_no_disk_change w json ws st zf total (emitted w)
                                          false 0) as Hh.
        rewrite forallb_forall in Hh.
        intros g. split.
        - intros [Hx|[Hx|[Hx|Hx]]]; try discriminate.
          + destruct (isDirectory st); discriminate.
          + apply Hh in Hx. discriminate.
        - intros [Hx|[Hx|[Hx|Hx]]]; try discriminate.
          + now injection Hx.
          + destruct (isDirectory st); discriminate.
          + apply Hh in Hx. discriminate. }
      subst body. destruct (isDirectory st); [apply Hz|].
      destruct (Hz (Some (st_size st))) as [Hin Hg]. split.
      - apply in_or_app. now right.
      - intros g. destruct (Hg g) as [Hu Hc]. split; intros Hx;
          apply in_app_or in Hx as [Hx|Hx]; auto;
          destruct (interactive w json); simpl in Hx; try contradiction;
          destruct Hx as [Hx|Hx]; try discriminate; contradiction. }
    destruct Hbody as [Hin Hg].
    assert (Hf : f = zf).
    { destruct H as [H|H]; apply in_app_or in H as [H|H].
      - destruct (existsSync w zf); simpl in H; [|contradiction].
        destruct H as [H|[]]. now injection H.
      - now apply (Hg f) in H.
      - destruct (existsSync w zf); simpl in H; [|contradiction].
        destruct H as [H|[]]. discriminate.
      - now apply (Hg f). }
    subst f. repeat split.
    + apply zip_path_not_workspace.
    + intros Hu. apply in_app_or in Hu as [Hu|Hu].
      * destruct (existsSync w zf); [reflexivity | contradiction].
      * now apply (Hg zf) in Hu.
    + intros He. rewrite He. simpl. eauto.
Qed.

Lemma create_unlinks_and_opens_the_archive_only_witness :
  exists ws,
    expandHomeDir proc_linux (Some "/data/proj") = Ret (Some ws)
    /\ "/tmp/proj.zip" = zip_path (sample_world 0 [] None) ws.
Proof.
  destruct (create_unlinks_and_opens_the_archive_only
              (sample_world 0 [] None) true "/data/proj" "/tmp/proj.zip")
    as (ws & Hws & Hf & _).
  - right. simpl. auto.
  - exists ws. auto.
Defined.

(** ** The progress bar *)








(** ** What the archive of a directory holds *)

(** X9.  Of the paths listed below a workspace directory, the archiver is
    asked to store exactly those that hold no component named [.git] and do
    not end in [.gitignore]; entries whose names begin with a dot are stored
    like any other. *)
Theorem directory_archive_contents (t : entry) (p : list string) :
  Forall proper p ->
  In p (Minimatch.glob "**/*" ignore_list (descendants [] t))
  <-> In p (descendants [] t)
      /\ ~ In ".git" p
      /\ (forall pre, p <> (pre ++ [".gitignore"])%list).
Proof.
  intros Hp. unfold Minimatch.glob. rewrite filter_In.
  change (Minimatch.minimatch "**/*" p)
    with (Minimatch.matchOne [Minimatch.GlobStar; Minimatch.Star] p).
  split.
  - intros [Hd H]. apply andb_prop in H as [_ Hi].
    apply negb_true_iff in Hi. split; [exact Hd|].
    split.
    + intros Hg. rewrite (proj2 (isIgnored_ignore_list p Hp)) in Hi by auto.
      discriminate.
    + intros pre E.
      rewrite (proj2 (isIgnored_ignore_list p Hp)) in Hi by eauto.
      discriminate.
  - intros (Hd & Hg & He). split; [exact Hd|].
    destruct (descendants_shape t [] p Hd) as (q & Hq & Hne).
    simpl in Hq. subst q. rewrite (matchOne_any p Hp Hne). simpl.
    apply negb_true_iff, not_true_iff_false.
    rewrite (isIgnored_ignore_list p Hp).
    intros [H|[pre H]]; [now apply Hg | now apply (He pre)].
Qed.

Lemma directory_archive_contents_witness :
  In [".hidden"; "notes"]
     (Minimatch.glob "**/*" ignore_list
        (descendants [] (Dir "proj" 4096
                             [Dir ".hidden" 4096 [File "notes" 3];
                              File ".gitignore" 20]))).
Proof.
  apply (proj2 (directory_archive_contents _ [".hidden"; "notes"]
                  ltac:(repeat constructor; discriminate))).
  split; [simpl; auto|]. split.
  - intros [H|[H|[]]]; discriminate.
  - intros [|a [|b [|c pre]]] E; discriminate.
Defined.

(** ** The state poller, continued *)

Lemma check_target (state : option string) (target : string) :
  check state = Target target ->
  exists d, state = Some d /\ target = toLowerCase d
            /\ In target legal_states.
Proof.
  unfold check. destruct state as [d|]; [|discriminate].
  destruct (String.eqb d EmptyString); [discriminate|].
  destruct (String.eqb_spec (toLowerCase d) "ready") as [E|_]; simpl.
  { intros [= <-]. exists d. split; [reflexivity|]. split; [reflexivity|].
    rewrite E. simpl. tauto. }
  destruct (String.eqb_spec (toLowerCase d) "serviceready") as [E|_]; simpl.
  { intros [= <-]. exists d. split; [reflexivity|]. split; [reflexivity|].
    rewrite E. simpl. tauto. }
  destruct (String.eqb_spec (toLowerCase d) "off") as [E|_]; simpl.
  { intros [= <-]. exists d. split; [reflexivity|]. split; [reflexivity|].
    rewrite E. simpl. tauto. }
  discriminate.
Qed.

Lemma waitfor_nil (d : string) :
  In (toLowerCase d) legal_states -> waitfor (Some d) [] = [Query].
Proof. intros H. cbn -[check]. now rewrite (check_legal d H). Qed.

(** X10.  With a legal desired state the poller works in strict turns: its
    run is some rounds of a query followed by the 5000 ms timer, then one
    more query, then at most one call of the callback and nothing after.
    So every query but the first follows a timer, no two queries are ever
    pending together, and there is one query more than there are timers. *)
Theorem waitfor_takes_turns (d : string) (responses : list response) :
  In (toLowerCase d) legal_states ->
  exists n tail,
    (n <= List.length responses)%nat
    /\ waitfor (Some d) responses = (polls n ++ Query :: tail)%list
    /\ (tail = [] \/ exists err res, tail = [Cb err res])
    /\ queries (waitfor (Some d) responses) = S n.
Proof.
  intros H. induction responses as [|r rest IH].
  - exists 0%nat, []. rewrite (waitfor_nil d H). repeat split; auto.
  - rewrite (waitfor_step d r rest H). destruct r as [err|m].
    + exists 0%nat, [Cb (Some err) None]. simpl.
      repeat split; eauto. lia.
    + destruct (reached m (toLowerCase d)).
      * exists 0%nat, [Cb None m]. simpl. repeat split; eauto. lia.
      * destruct IH as (n & tail & Hn & -> & Ht & Hq).
        exists (S n), tail. simpl. repeat split; auto; [lia|].
        unfold queries in *. simpl. now rewrite Hq.
Qed.

Lemma waitfor_takes_turns_witness :
  exists n tail,
    (n <= 2)%nat
    /\ waitfor (Some "ServiceReady")
               [Success None;
                Success (Some {| id := "ps1"; state := Some "serviceready" |})]
       = (polls n ++ Query :: tail)%list.
Proof.
  destruct (waitfor_takes_turns
              "ServiceReady"
              [Success None;
               Success (Some {| id := "ps1"; state := Some "serviceready" |})])
    as (n & tail & Hn & E & _).
  - simpl. auto.
  - exists n, tail. auto.
Defined.

(** X11.  The callback of the poller gets either an error and no record,
    or no error and a record whose state is the lower-case form of the
    desired state, which is then one of off, serviceready and ready; it
    never gets neither, nor both. *)
Theorem waitfor_callback_result
        (desired : option string) (responses : list response)
        (err : option error) (res : option machine) :
  In (Cb err res) (waitfor desired responses) ->
  (exists e, err = Some e /\ res = None)
  \/ (err = None
      /\ exists d r,
          desired = Some d /\ res = Some r
          /\ state r = Some (toLowerCase d)
          /\ In (toLowerCase d) legal_states).
Proof.
  induction responses as [|r rest IH]; cbn -[check];
    destruct (check desired) as [e|target] eqn:Ec.
  - intros [H|[]]. injection H as <- <-. eauto.
  - intros [H|[]]. discriminate.
  - intros [H|[]]. injection H as <- <-. eauto.
  - intros [H|H]; [discriminate|].
    destruct r as [e|m].
    + destruct H as [H|[]]. injection H as <- <-. eauto.
    + destruct (reached m target) eqn:Er.
      * destruct H as [H|[]]. injection H as <- <-. right.
        split; [reflexivity|].
        apply check_target in Ec as (d & -> & -> & Hl).
        apply reached_iff in Er as (x & -> & Hx). eauto 10.
      * destruct H as [H|H]; [discriminate|]. now apply IH.
Qed.

Lemma waitfor_callback_result_witness :
  exists d r,
    Some "READY" = Some d
    /\ Some {| id := "ps1"; state := Some "ready" |} = Some r
    /\ state r = Some (toLowerCase d).
Proof.
  destruct (waitfor_callback_result
              (Some "READY")
              [Success (Some {| id := "ps1"; state := Some "ready" |})]
              None (Some {| id := "ps1"; state := Some "ready" |}))
    as [(e & He & _)|(_ & d & r & Hd & Hr & Hs & _)].
  - simpl. auto.
  - discriminate.
  - exists d, r. auto.
Defined.

Lemma toLowerCase_empty (d : string) :
  String.eqb d EmptyString = String.eqb (toLowerCase d) EmptyString.
Proof. destruct d; reflexivity. Qed.

(** X12.  The poller reads the desired state without regard to letter
    case: two desired states with the same lower-case form give the same
    run against the same answers. *)
Theorem waitfor_ignores_case_of_desired_state
        (d d' : string) (responses : list response) :
  toLowerCase d = toLowerCase d' ->
  waitfor (Some d) responses = waitfor (Some d') responses.
Proof.
  intros E.
  assert (Hc : check (Some d) = check (Some d')).
  { unfold check. now rewrite (toLowerCase_empty d), (toLowerCase_empty d'), E. }
  induction responses as [|r rest IH]; cbn -[check]; rewrite Hc;
    [reflexivity|].
  now rewrite IH.
Qed.

Lemma waitfor_ignores_case_of_desired_state_witness :
  waitfor (Some "OFF") [Success (Some {| id := "ps1"; state := Some "off" |})]
  = waitfor (Some "off")
            [Success (Some {| id := "ps1"; state := Some "off" |})].
Proof.
  apply (waitfor_ignores_case_of_desired_state "OFF" "off"). reflexivity.
Defined.

(** X13.  The poller never gives up: as long as the server answers without
    error and without the desired state, however many times, it sets the
    timer and queries again, and never calls the callback. *)
Theorem waitfor_never_gives_up (d : string) (pending : list (option machine)) :
  In (toLowerCase d) legal_states ->
  (forall m, In m pending -> reached m (toLowerCase d) = false) ->
  waitfor (Some d) (map Success pending)
  = (polls (List.length pending) ++ [Query])%list
  /\ forall err res,
      ~ In (Cb err res) (waitfor (Some d) (map Success pending)).
Proof.
  intros H Hp.
  assert (E : waitfor (Some d) (map Success pending)
              = (polls (List.length pending) ++ [Query])%list).
  { induction pending as [|m pending IH].
    - apply (waitfor_nil d H).
    - simpl map. rewrite (waitfor_step d _ _ H), (Hp m) by (now left).
      rewrite IH by (intros m' Hm'; apply Hp; now right). reflexivity. }
  split; [exact E|]. intros err res. rewrite E. clear.
  induction pending as [|m pending IH]; simpl.
  - intros [H|[]]. discriminate.
  - intros [H|[H|H]]; try discriminate. now apply IH.
Qed.

Lemma waitfor_never_gives_up_witness :
  waitfor (Some "off")
          (map Success [None; Some {| id := "ps1"; state := Some "ready" |};
                        Some {| id := "ps1"; state := None |}])
  = (polls 3 ++ [Query])%list.
Proof.
  refine (proj1 (waitfor_never_gives_up "off" _ _ _)).
  - simpl. auto.
  - intros m [<-|[<-|[<-|[]]]]; reflexivity.
Defined.

(** ** Project initialisation *)

Import Project.

Lemma basename_not_slash (p : string) : String.eqb (Path.basename p) "/" = false.
Proof.
  apply String.eqb_neq. intros E.
  apply (basename_no_separator p "/"%char); [|reflexivity].
  rewrite E. now left.
Qed.

(** Splits a run of [init] or of [write_config] into its cases. *)
Ltac config_cases w d :=
  unfold write_config, init_report, init_done;
  destruct (stat w (configDir w)) as [?st|];
  [destruct (isDirectory _)|destruct (mkdirp_fails d)];
  cbn [negb];
  try (destruct (stat w (configFileName w)) as [?st|];
       [destruct (isFile _)|]; cbn [negb]);
  try destruct (write_fails d);
  destruct (paperspace_cli w).

(** X14.  [init] never reports its error about the root directory: the
    guard compares [path.basename(cwd)] with "/", which [path.basename]
    never returns, so from the root directory [init] goes on, with the
    empty string for project name. *)
Theorem init_root_guard_never_fires (w : world) (d : faults)
        (name : option string) (s : step) :
  In s (init w d name) -> ~ says init_root_message s.
Proof.
  unfold init.
  assert (Hg : (negb (truthy name)
                && String.eqb (project_name w name) "/")%bool = false).
  { unfold truthy, project_name. destruct name as [v|].
    - destruct (String.eqb v EmptyString); simpl;
        [apply basename_not_slash | reflexivity].
    - simpl. apply basename_not_slash. }
  rewrite Hg. clear Hg.
  config_cases w d; simpl; intros H;
    repeat (destruct H as [H|H]; try contradiction); subst s;
    intros [E|[c E]]; discriminate.
Qed.

Lemma init_root_guard_never_fires_witness :
  init root_world no_faults None
  = [Mkdirp "/.ps_project"; WriteConfig "/.ps_project/config.json" EmptyString;
     Result EmptyString]
  /\ ~ says init_root_message (Result EmptyString).
Proof.
  split; [reflexivity|].
  apply (init_root_guard_never_fires root_world no_faults None).
  right. right. now left.
Defined.

(** X15.  On a sound disk, and when writing the file does not throw,
    [init] does all or nothing: either it makes the directory
    [.ps_project] if it is missing, writes [config.json] in it with the
    project name (the name given, or the base name of the working directory)
    and ends by reporting that same name; or it changes nothing on the disk
    and hands no result to the callback. *)
Theorem init_all_or_nothing (w : world) (d : faults) (name : option string) :
  write_fails d = None -> sound_disk w ->
  init w d name
  = ((if existsSync w (configDir w) then [] else [Mkdirp (configDir w)])
       ++ [WriteConfig (configFileName w) (project_name w name)]
       ++ init_done w (project_name w name))%list
  \/ (forallb (fun s => negb (changes_disk s)) (init w d name) = true
      /\ forall p, ~ In (Result p) (init w d name)).
Proof.
  intros Hw Hs. unfold init.
  assert (Hg : (negb (truthy name)
                && String.eqb (project_name w name) "/")%bool = false).
  { unfold truthy, project_name. destruct name as [v|].
    - destruct (String.eqb v EmptyString); simpl;
        [apply basename_not_slash | reflexivity].
    - simpl. apply basename_not_slash. }
  rewrite Hg. clear Hg. unfold sound_disk in Hs. unfold existsSync.
  unfold write_config, init_report. rewrite Hw.
  destruct (stat w (configDir w)) as [st|].
  - destruct (isDirectory st); cbn [negb].
    + destruct (stat w (configFileName w)) as [st'|];
        [destruct (isFile st'); cbn [negb]|]; auto.
      right. destruct (paperspace_cli w); split; try reflexivity;
        intros p H; simpl in H;
        repeat (destruct H as [H|H]; try discriminate; try contradiction).
    + right. destruct (paperspace_cli w); split; try reflexivity;
        intros p H; simpl in H;
        repeat (destruct H as [H|H]; try discriminate; try contradiction).
  - rewrite (Hs eq_refl). destruct (mkdirp_fails d) as [e|]; [|auto].
    right. split; [reflexivity|]. intros p [H|[]]. discriminate.
Qed.

Lemma init_all_or_nothing_witness :
  init (sample_world 0 [] None)
       {| mkdirp_fails := None; write_fails := None |} (Some "demo")
  = [Mkdirp "/work/.ps_project";
     WriteConfig "/work/.ps_project/config.json" "demo";
     Result "demo"].
Proof.
  destruct (init_all_or_nothing
              (sample_world 0 [] None)
              {| mkdirp_fails := None; write_fails := None |} (Some "demo")
              eq_refl (fun _ => eq_refl)) as [H|[H _]].
  - exact H.
  - discriminate H.
Defined.

(** X16.  When no call that changes the disk throws, [init] calls the
    callback exactly once, as the last thing it does; on the command line
    the callback gets neither an error nor a result, whether [init]
    succeeded or not. *)
Theorem init_calls_back_once (w : world) (d : faults) (name : option string) :
  mkdirp_fails d = None -> write_fails d = None ->
  exists pre last,
    init w d name = (pre ++ [last])%list
    /\ calls_back last = true
    /\ forallb (fun s => negb (calls_back s)) pre = true
    /\ (paperspace_cli w = true -> last = Act (Callback None)).
Proof.
  intros Hm Hw. unfold init.
  assert (Hg : (negb (truthy name)
                && String.eqb (project_name w name) "/")%bool = false).
  { unfold truthy, project_name. destruct name as [v|].
    - destruct (String.eqb v EmptyString); simpl;
        [apply basename_not_slash | reflexivity].
    - simpl. apply basename_not_slash. }
  rewrite Hg. clear Hg.
  unfold write_config, init_report, init_done. rewrite Hm, Hw.
  destruct (stat w (configDir w)) as [st|];
    [destruct (isDirectory st)|]; cbn [negb];
    try (destruct (stat w (configFileName w)) as [st'|];
         [destruct (isFile st')|]; cbn [negb]);
    destruct (paperspace_cli w); simpl;
    match goal with
    | |- exists pre last, [?a] = _ /\ _ => exists [], a
    | |- exists pre last, [?a; ?b] = _ /\ _ => exists [a], b
    | |- exists pre last, [?a; ?b; ?c] = _ /\ _ => exists [a; b], c
    | |- exists pre last, [?a; ?b; ?c; ?e] = _ /\ _ => exists [a; b; c], e
    end;
    repeat split; intros; discriminate.
Qed.

Lemma init_calls_back_once_witness :
  exists pre last,
    init (sample_world 0 [] None)
         {| mkdirp_fails := None; write_fails := None |} None
    = (pre ++ [last])%list
    /\ calls_back last = true.
Proof.
  destruct (init_calls_back_once
              (sample_world 0 [] None)
              {| mkdirp_fails := None; write_fails := None |} None
              eq_refl eq_refl) as (pre & last & H & Hc & _).
  exists pre, last. auto.
Defined.

(** ** [create] before the workspace *)

Lemma init_of_truthy (p : Job.params) :
  Job.truthy_value (Job.init_of p) = true.
Proof.
  unfold Job.init_of. destruct (Job.truthy_value (Job.p_init p)) eqn:E;
    [exact E | reflexivity].
Qed.

(** X17.  The [init] parameter cannot switch project initialisation off:
    the variable it sets is truthy whatever the parameter is.  So the steps
    [create] takes before the workspace, whether it stops there, and the
    values it goes on with are those it would have with any other
    [params.init], but for the key [init] itself, which is deleted from the
    parameters when truthy and left in them, to be handed to the remote
    call, when falsy. *)
Theorem prepare_ignores_init (w : world) (d : faults) (c : Job.config)
        (p : Job.params) (v : Job.value) :
  Job.truthy_value (Job.init_of (with_init p v)) = true
  /\ Job.prepare w d c (with_init p v)
     = match Job.prepare w d c p with
       | Stop steps => Stop steps
       | Go steps r =>
           Go steps
              (with_init_param
                 (if Job.truthy_value v then Job.Undefined else v) r)
       end.
Proof.
  split; [apply init_of_truthy|].
  unfold Job.prepare, Job.project_of.
  rewrite (init_of_truthy p), (init_of_truthy (with_init p v)).
  change (Job.json_of (with_init p v)) with (Job.json_of p).
  change (Job.report w (with_init p v)) with (Job.report w p).
  cbn [with_init Job.p_project Job.p_projectId Job.p_container
       Job.p_workspace Job.p_machineType Job.p_command Job.p_name
       Job.p_dataset Job.p_json].
  change (Job.tail_of w (with_init p v)) with (Job.tail_of w p).
  change (Job.tail_left (with_init p v)) with (Job.tail_left p).
  change (Job.init_left (with_init p v))
    with (if Job.truthy_value v then Job.Undefined else v).
  repeat match goal with
         | |- context [match ?x with _ => _ end] =>
             lazymatch x with
             | Job.truthy_value v => fail
             | _ => destruct x
             end
         end; reflexivity.
Qed.

(** Closes a goal about a step of an error report whose message is not
    that of the root guard. *)
Ltac by_report Hr H :=
  match type of H with
  | In _ (Job.report _ _ ?e) =>
      apply (Hr e _);
      [unfold create_root_message; simpl; discriminate | exact H]
  end.

Lemma stored_steps (key : string) (proj given kept : option string) (s : step) :
  In s (fst (Job.stored key proj given kept)) ->
  exists v, s = SetConfig key proj v.
Proof.
  unfold Job.stored. destruct (truthy given); simpl; [|contradiction].
  intros [<-|[]]. eauto.
Qed.

(** What holds of every error reported other than that of the root guard,
    and of every other kind of step taken before the workspace, holds of all
    the steps taken there. *)
Lemma prepare_steps (P : step -> Prop) (w : world) (d : faults)
      (c : Job.config) (p : Job.params) :
  (forall err s, message err <> create_root_message ->
                 In s (Job.report w p err) -> P s) ->
  (forall dir, P (Mkdirp dir)) ->
  (forall f pr, P (WriteConfig f pr)) ->
  (forall k pr v, P (SetConfig k pr v)) ->
  (forall e, P (Act (Uncaught e))) ->
  (forall t, P (Act (ConsoleLog ("New project name: " ++ t)))) ->
  forall s, In s (steps_of (Job.prepare w d c p)) -> P s.
Proof.
  intros Hr Hm Hw Hs Hu Hn.
  assert (Hproj : forall s, In s (steps_of (Job.project_of w d c p)) -> P s).
  { unfold Job.project_of.
    destruct (negb (truthy (Job.p_project p))
              && negb (truthy (Job.p_projectId p)))%bool; [|intros s []].
    destruct (truthy (Job.getProject c)); [intros s []|].
    rewrite basename_not_slash.
    destruct (paperspace_cli w && negb (Job.json_of p)
              && Job.truthy_value (Job.init_of p))%bool; [|intros s []].
    unfold write_config.
    destruct (stat w (configDir w)) as [st|];
      [destruct (isDirectory st)|destruct (mkdirp_fails d)]; cbn [negb];
      try (destruct (stat w (configFileName w)) as [st'|];
           [destruct (isFile st')|]; cbn [negb]);
      try destruct (write_fails d); cbn [steps_of]; intros s H;
      repeat match goal with
             | H : _ \/ _ |- _ => destruct H as [H|H]
             | H : In _ (_ ++ _) |- _ => apply in_app_or in H
             | H : In _ (_ :: _) |- _ => destruct H as [H|H]
             | H : In _ [] |- _ => destruct H
             | H : In _ (Job.report _ _ ?e) |- _ =>
                 apply (Hr e _) in H;
                 [|unfold create_root_message; simpl; discriminate]
             | H : _ = s |- _ => subst s
             end; auto. }
  unfold Job.prepare. destruct (Job.project_of w d c p) as [steps0|steps0 proj];
    [exact Hproj|]. simpl in Hproj.
  destruct (Job.truthy_value (Job.p_container p)
            && Job.not_a_string (Job.p_container p))%bool.
  { intros s H. apply in_app_or in H as [H|H]; [auto|].
    by_report Hr H. }
  destruct (Job.truthy_value (Job.p_workspace p)
            && Job.not_a_string (Job.p_workspace p))%bool.
  { intros s H. apply in_app_or in H as [H|H]; [auto|].
    by_report Hr H. }
  destruct (Job.stored "machineType" proj (Job.p_machineType p)
                       (Job.getMachineType c)) as [s1 mt] eqn:E1.
  destruct (Job.stored "container" proj (Job.as_string (Job.p_container p))
                       (Job.getContainer c)) as [s2 ct] eqn:E2.
  destruct (Job.stored "command" proj (Job.p_command p) (Job.getCommand c))
    as [s3 cm] eqn:E3.
  destruct (Job.stored "workspace" proj (Job.as_string (Job.p_workspace p))
                       (Job.getWorkspace c)) as [s4 ws] eqn:E4.
  destruct (Job.stored "name" proj (Job.p_name p) (Job.getName c))
    as [s5 nm] eqn:E5.
  destruct (Job.stored "dataset" proj (Job.p_dataset p) (Job.getDataset c))
    as [s6 ds] eqn:E6.
  assert (Hstored : forall key given kept steps got s,
             Job.stored key proj given kept = (steps, got) ->
             In s steps -> P s).
  { intros key given kept steps got s E H.
    pose proof (stored_steps key proj given kept s) as X. rewrite E in X.
    destruct (X H) as [v ->]. apply Hs. }
  assert (Hset : forall s, In s (steps0 ++ s1 ++ s2 ++ s3 ++ s4 ++ s5 ++ s6)%list
                           -> P s).
  { intros s H.
    repeat match goal with
           | H : In _ (_ ++ _) |- _ => apply in_app_or in H as [H|H]
           end; eauto. }
  destruct ct as [ct'|]; [destruct (String.eqb ct' EmptyString)|];
    cbn [steps_of]; auto; intros s H; apply in_app_or in H as [H|H]; auto;
    by_report Hr H.
Qed.

Lemma stored_value (key : string) (proj given kept : option string) :
  snd (Job.stored key proj given kept) = if truthy given then given else kept.
Proof. unfold Job.stored. destruct (truthy given); reflexivity. Qed.

Lemma resolved_not_empty (ws : option string) (dir : string) :
  dir <> EmptyString ->
  (if truthy ws then match ws with Some v => v | None => EmptyString end
   else dir) <> EmptyString.
Proof.
  intros Hd. destruct ws as [v|]; simpl; [|exact Hd].
  destruct (String.eqb_spec v EmptyString); simpl; auto.
Qed.

(** What [create] goes on with when it gets past line 213. *)
Lemma prepare_go (w : world) (d : faults) (c : Job.config) (p : Job.params)
      (steps : list step) (r : Job.prepared) :
  Job.prepare w d c p = Go steps r ->
  Some (Job.container r) = container_of c p
  /\ Job.container r <> EmptyString
  /\ Job.json r = Job.json_of p
  /\ Job.tail r = Job.tail_of w p
  /\ (cwd (proc w) <> EmptyString -> Job.workspace r <> EmptyString).
Proof.
  unfold Job.prepare.
  destruct (Job.project_of w d c p) as [steps0|steps0 proj]; [discriminate|].
  destruct (Job.truthy_value (Job.p_container p)
            && Job.not_a_string (Job.p_container p))%bool; [discriminate|].
  destruct (Job.truthy_value (Job.p_workspace p)
            && Job.not_a_string (Job.p_workspace p))%bool; [discriminate|].
  pose proof (stored_value "container" proj
                           (Job.as_string (Job.p_container p))
                           (Job.getContainer c)) as Hct.
  destruct (Job.stored "machineType" _ _ _) as [s1 mt].
  destruct (Job.stored "container" _ _ _) as [s2 ct].
  destruct (Job.stored "command" _ _ _) as [s3 cm].
  destruct (Job.stored "workspace" _ _ _) as [s4 ws].
  destruct (Job.stored "name" _ _ _) as [s5 nm].
  destruct (Job.stored "dataset" _ _ _) as [s6 ds].
  simpl in Hct. fold (container_of c p) in Hct.
  destruct ct as [ct'|]; [|discriminate].
  destruct (String.eqb_spec ct' EmptyString) as [|Hne]; [discriminate|].
  intros [= <- <-]. cbn [Job.container Job.json Job.tail Job.workspace].
  split; [now rewrite Hct|]. split; [exact Hne|].
  split; [reflexivity|]. split; [reflexivity|].
  apply resolved_not_empty.
Qed.

(** X18.  [create] does not get past its parameters without a container:
    the container it goes on with is the [container] parameter when that is
    a non-empty string and the one of the project configuration otherwise,
    and is never empty; when neither gives one, no remote call is made.
    The workspace it goes on with is never empty either, the working
    directory standing in when neither the parameter nor the configuration
    names one. *)
Theorem create_requires_container (w : world) (d : faults) (c : Job.config)
        (p : Job.params) :
  (forall steps r,
      Job.prepare w d c p = Go steps r ->
      Some (Job.container r) = container_of c p
      /\ Job.container r <> EmptyString
      /\ (cwd (proc w) <> EmptyString -> Job.workspace r <> EmptyString))
  /\ (truthy (container_of c p) = false ->
      forall f n, ~ In (Act (Invoke f n)) (Job.create_steps w d c p)).
Proof.
  split.
  - intros steps r H.
    destruct (prepare_go w d c p steps r H) as (H1 & H2 & _ & _ & H5). auto.
  - intros Hc f n H. unfold Job.create_steps in H.
    destruct (Job.prepare w d c p) as [steps|steps r] eqn:E.
    + assert (HP : forall s, In s (steps_of (Job.prepare w d c p)) ->
                             forall f n, s <> Act (Invoke f n)).
      { apply (prepare_steps (fun s => forall f n, s <> Act (Invoke f n)));
          try discriminate.
        intros err s _ Hs f' n' ->. unfold Job.report in Hs.
        apply in_map_iff in Hs as (a & [= ->] & Ha).
        now apply ifCliPrintErrorOnly_no_invoke in Ha. }
      rewrite E in HP. now apply (HP _ H f n).
    + destruct (prepare_go w d c p steps r E) as (H1 & H2 & _).
      rewrite <- H1 in Hc. simpl in Hc. apply negb_false_iff in Hc.
      apply String.eqb_eq in Hc. contradiction.
Qed.

Lemma create_requires_container_witness :
  ~ In (Act (Invoke None None))
       (Job.create_steps
          (sample_world 0 [] None) no_faults empty_config
          {| Job.p_json := Job.Undefined; Job.p_init := Job.Undefined;
             Job.p_tail := Job.Undefined; Job.p_project := Some "demo";
             Job.p_projectId := None; Job.p_container := Job.Str EmptyString;
             Job.p_workspace := Job.Str "none"; Job.p_machineType := None;
             Job.p_command := None; Job.p_name := None;
             Job.p_dataset := None |}).
Proof.
  apply (proj2 (create_requires_container
                  (sample_world 0 [] None) no_faults empty_config
                  {| Job.p_json := Job.Undefined; Job.p_init := Job.Undefined;
             Job.p_tail := Job.Undefined; Job.p_project := Some "demo";
             Job.p_projectId := None; Job.p_container := Job.Str EmptyString;
             Job.p_workspace := Job.Str "none"; Job.p_machineType := None;
             Job.p_command := None; Job.p_name := None;
             Job.p_dataset := None |})
               eq_refl None None).
Defined.

(** X19.  [create] never reports its error about the root directory
    either: before the workspace, no message printed and no error handed to
    the callback is the one of the guard at line 164. *)
Theorem create_root_guard_never_fires (w : world) (d : faults)
        (c : Job.config) (p : Job.params) (s : step) :
  In s (steps_of (Job.prepare w d c p)) -> ~ says create_root_message s.
Proof.
  revert s. apply (prepare_steps (fun s => ~ says create_root_message s)).
  - intros err s Hne Hs [E|[code E]]; subst s; unfold Job.report in Hs;
      apply in_map_iff in Hs as (a & [= ->] & Ha);
      unfold ifCliPrintErrorOnly in Ha; destruct (interactive w _);
      simpl in Ha;
      repeat (destruct Ha as [Ha|Ha]; try discriminate; try contradiction).
    + injection Ha as Ha. now apply Hne.
    + injection Ha as Ha. apply Hne. now rewrite Ha.
  - intros dir [E|[code E]]; discriminate.
  - intros f pr [E|[code E]]; discriminate.
  - intros k pr v [E|[code E]]; discriminate.
  - intros e [E|[code E]]; discriminate.
  - intros t [E|[code E]]; discriminate.
Qed.

Lemma create_root_guard_never_fires_witness :
  steps_of (Job.prepare root_world no_faults empty_config bare_params)
  = [SetConfig "container" (Some EmptyString) "ubuntu";
     SetConfig "workspace" (Some EmptyString) "none"]
  /\ ~ says create_root_message
        (SetConfig "container" (Some EmptyString) "ubuntu").
Proof.
  split; [reflexivity|].
  apply (create_root_guard_never_fires root_world no_faults empty_config
                                       bare_params).
  now left.
Defined.

(** ** [create] after the remote call *)

(** Takes membership in a list given by its elements apart. *)
Ltac in_cases H :=
  repeat match type of H with
         | In _ (_ ++ _) => apply in_app_or in H; destruct H as [H|H]
         | In _ (_ :: _) => destruct H as [H|H]
         | In _ [] => destruct H
         | In _ (if ?b then _ else _) => destruct b
         | _ = _ => try discriminate H
         end.

Lemma finishes_once_app (l r : list Job.event) :
  forallb (fun e => negb (final e)) l = true ->
  finishes_once (l ++ r) = finishes_once r.
Proof.
  induction l as [|a l IH]; intros H; [reflexivity|].
  simpl in *. apply andb_prop in H as [Ha Hl].
  apply negb_true_iff in Ha. rewrite Ha. now apply IH.
Qed.

Lemma say_error_plain (r : Job.job) :
  forallb (fun e => negb (final e)) (Job.say_error r) = true.
Proof.
  unfold Job.say_error.
  destruct (Job.is_text (Job.job_state r) "Error"
            || Job.truthy_field (Job.jobError r))%bool; reflexivity.
Qed.

Lemma showCb_finishes (rep : Job.reply Job.job) :
  finishes_once (Job.showCb rep) = true.
Proof.
  unfold Job.showCb. destruct rep as [e|r]; [reflexivity|].
  destruct (negb (Job.truthy_field (Job.job_state r))); [reflexivity|].
  cbn [finishes_once final].
  rewrite finishes_once_app by apply say_error_plain. reflexivity.
Qed.

Lemma logsCb_finishes (s : Job.server) (jobId : string) (err : option error) :
  finishes_once (Job.logsCb s jobId err) = true.
Proof.
  unfold Job.logsCb. destruct err; [reflexivity|].
  cbn [finishes_once final]. apply showCb_finishes.
Qed.

Lemma waitforCb_finishes (s : Job.server) (jobId : string)
      (rep : Job.reply Job.job) :
  finishes_once (Job.waitforCb s jobId rep) = true.
Proof.
  unfold Job.waitforCb. destruct rep as [e|r]; [reflexivity|].
  destruct (negb (Job.truthy_field (Job.job_state r))); [reflexivity|].
  cbn [finishes_once final].
  destruct (negb (Job.is_text (Job.job_state r) "Stopped")
            && negb (Job.is_text (Job.job_state r) "Failed")
            && negb (Job.is_text (Job.job_state r) "Running"))%bool.
  - rewrite finishes_once_app by apply say_error_plain. reflexivity.
  - cbn [finishes_once final]. apply logsCb_finishes.
Qed.

Lemma methodCb_finishes cli json tail s rep :
  finishes_once (Job.methodCb cli json tail s rep) = true.
Proof.
  unfold Job.methodCb. destruct rep as [e|res]; [reflexivity|].
  rewrite finishes_once_app by (destruct res; reflexivity).
  unfold Job.maybeTailLogs.
  destruct (cli && negb json && tail)%bool; [|reflexivity].
  destruct res as [r|]; [|reflexivity].
  destruct (Job.job_id r) as [| |jobId]; try reflexivity.
  destruct (String.eqb jobId EmptyString); [reflexivity|].
  cbn [finishes_once final].
  rewrite finishes_once_app
    by (destruct (Job.is_text (Job.job_state r) "Pending"); reflexivity).
  cbn [finishes_once final]. apply waitforCb_finishes.
Qed.

Lemma showCb_events (rep : Job.reply Job.job) (e : Job.event) :
  In e (Job.showCb rep) ->
  (exists text, e = Job.Say text) \/ (exists err, e = Job.Done err None).
Proof.
  unfold Job.showCb, Job.say_error. intros H.
  destruct rep as [err|r]; in_cases H; subst; eauto.
Qed.

Lemma logsCb_events (s : Job.server) (jobId : string) (err : option error)
      (e : Job.event) :
  In e (Job.logsCb s jobId err) ->
  (exists text, e = Job.Say text) \/ (exists x, e = Job.Done x None)
  \/ (e = Job.Show jobId /\ err = None).
Proof.
  unfold Job.logsCb. intros H. destruct err as [x|]; in_cases H; subst; eauto.
  apply showCb_events in H as [H|H]; auto.
Qed.

Lemma waitforCb_events (s : Job.server) (jobId : string)
      (rep : Job.reply Job.job) (e : Job.event) :
  In e (Job.waitforCb s jobId rep) ->
  (exists text, e = Job.Say text) \/ (exists x, e = Job.Done x None)
  \/ ((e = Job.Logs jobId \/ (e = Job.Show jobId /\ Job.logs_reply s = None))
      /\ In (Job.Logs jobId) (Job.waitforCb s jobId rep)
      /\ exists r, rep = Job.Replies r /\ live r = true).
Proof.
  unfold Job.waitforCb, Job.say_error. intros H.
  destruct rep as [err|r]; [in_cases H; subst; eauto|].
  destruct (negb (Job.truthy_field (Job.job_state r))); [contradiction|].
  destruct H as [<-|H]; [eauto|].
  destruct (negb (Job.is_text (Job.job_state r) "Stopped")
            && negb (Job.is_text (Job.job_state r) "Failed")
            && negb (Job.is_text (Job.job_state r) "Running"))%bool eqn:Ec.
  - in_cases H; subst; eauto.
  - assert (Hl : live r = true).
    { unfold live. destruct (Job.is_text (Job.job_state r) "Stopped"),
        (Job.is_text (Job.job_state r) "Failed"),
        (Job.is_text (Job.job_state r) "Running"); simpl in *; congruence. }
    assert (Hin : In (Job.Logs jobId)
                     (Job.Say ("Job " ++ Job.text_of (Job.job_state r))
                        :: Job.Say "Awaiting logs..."
                        :: Job.Logs jobId
                        :: Job.logsCb s jobId (Job.logs_reply s)))
      by (right; right; now left).
    destruct H as [<-|[<-|H]].
    + eauto.
    + right. right. split; [now left|]. split; [exact Hin | eauto].
    + apply logsCb_events in H as [H|[H|[H1 H2]]]; auto.
      right. right. split; [now right|]. split; [exact Hin | eauto].
Qed.

(** X20.  What follows the remote call goes in order and ends once.  The
    callback is called at most once, last, and nothing runs after a
    [TypeError].  The job is waited for only when tailing, in state
    "Running", under the id the server returned; its logs are asked for only
    after the wait answered with a job that is Stopped, Failed or Running;
    the job is shown only after the logs came without error.  When tailing,
    the callback is never handed the job; otherwise it is handed exactly
    what the remote call returned.  The last job id is recorded only from a
    job the server returned. *)
Theorem after_create_in_order (cli json tail : bool) (s : Job.server)
        (rep : Job.reply (option Job.job)) :
  let trace := Job.methodCb cli json tail s rep in
  finishes_once trace = true
  /\ (forall id st,
         In (Job.Waitfor id st) trace ->
         st = "Running" /\ (cli && negb json && tail)%bool = true
         /\ exists r, rep = Job.Replies (Some r) /\ Job.job_id r = Job.Has id)
  /\ (forall id,
         In (Job.Logs id) trace ->
         In (Job.Waitfor id "Running") trace
         /\ exists r2, Job.waitfor_reply s = Job.Replies r2 /\ live r2 = true)
  /\ (forall id,
         In (Job.Show id) trace ->
         In (Job.Logs id) trace /\ Job.logs_reply s = None)
  /\ (forall err res,
         In (Job.Done err res) trace ->
         if (cli && negb json && tail)%bool then res = None
         else rep = Job.Replies res /\ err = None
              \/ exists e, rep = Job.Fails e /\ err = Some e /\ res = None)
  /\ (forall pr id,
         In (Job.SetLastJobId pr id) trace ->
         exists r, rep = Job.Replies (Some r)
                   /\ pr = Job.job_project r /\ id = Job.job_id r).
Proof.
  cbv zeta. split; [apply methodCb_finishes|].
  unfold Job.methodCb, Job.maybeTailLogs.
  destruct rep as [e|res].
  { repeat split; intros; in_cases H; try discriminate.
    injection H as <- <-. destruct (cli && negb json && tail)%bool; eauto. }
  destruct (cli && negb json && tail)%bool.
  - destruct res as [r|].
    + destruct (Job.job_id r) as [| |jobId] eqn:Eid;
        [repeat split; intros; in_cases H; try discriminate;
         injection H as <- <-; eauto ..|].
      destruct (String.eqb jobId EmptyString);
        [repeat split; intros; in_cases H; try discriminate;
         injection H as <- <-; rewrite <- Eid; eauto|].
      assert (Hw : forall e,
                 In e (Job.waitforCb s jobId (Job.waitfor_reply s)) ->
                 (exists text, e = Job.Say text)
                 \/ (exists x, e = Job.Done x None)
                 \/ ((e = Job.Logs jobId
                      \/ (e = Job.Show jobId /\ Job.logs_reply s = None))
                     /\ In (Job.Logs jobId)
                           (Job.waitforCb s jobId (Job.waitfor_reply s))
                     /\ exists r2, Job.waitfor_reply s = Job.Replies r2
                                   /\ live r2 = true))
        by (intros e; apply waitforCb_events).
      assert (Hwait :
                In (Job.Waitfor jobId "Running")
                   ([Job.SetLastJobId (Job.job_project r) (Job.Has jobId)]
                      ++ Job.Say ("New jobId: " ++ jobId)
                      :: Job.Say ("Job " ++ Job.text_of (Job.job_state r))
                      :: (if Job.is_text (Job.job_state r) "Pending"
                          then [Job.Say "Waiting for job to run..."] else [])
                      ++ Job.Waitfor jobId "Running"
                      :: Job.waitforCb s jobId (Job.waitfor_reply s))).
      { right. right. right. apply in_or_app. right. now left. }
      assert (Hlogs :
                In (Job.Logs jobId)
                   (Job.waitforCb s jobId (Job.waitfor_reply s)) ->
                In (Job.Logs jobId)
                   ([Job.SetLastJobId (Job.job_project r) (Job.Has jobId)]
                      ++ Job.Say ("New jobId: " ++ jobId)
                      :: Job.Say ("Job " ++ Job.text_of (Job.job_state r))
                      :: (if Job.is_text (Job.job_state r) "Pending"
                          then [Job.Say "Waiting for job to run..."] else [])
                      ++ Job.Waitfor jobId "Running"
                      :: Job.waitforCb s jobId (Job.waitfor_reply s))).
      { intros H. right. right. right. apply in_or_app. right. now right. }
      split; [|split; [|split; [|split]]].
      * intros id st H. in_cases H; try discriminate.
        -- injection H as <- <-. eauto.
        -- apply Hw in H as [[t H]|[[x H]|[[H|[H Hl]] [Hin Hr]]]];
             discriminate.
      * intros id H. in_cases H; try discriminate.
        apply Hw in H as [[t H]|[[x H]|[[H|[H Hl]] [Hin Hr]]]];
          try discriminate.
        injection H as <-. auto.
      * intros id H. in_cases H; try discriminate.
        apply Hw in H as [[t H]|[[x H]|[[H|[H Hl]] [Hin Hr]]]];
          try discriminate.
        injection H as <-. auto.
      * intros err res H. in_cases H; try discriminate.
        apply Hw in H as [[t H]|[[x H]|[[H|[H Hl]] [Hin Hr]]]];
          try discriminate.
        now injection H.
      * intros pr id H. in_cases H; try discriminate.
        -- injection H as <- <-. rewrite <- Eid. eauto.
        -- apply Hw in H as [[t H]|[[x H]|[[H|[H Hl]] [Hin Hr]]]];
             discriminate.
    + repeat split; intros; in_cases H; discriminate.
  - destruct res as [r|]; repeat split; intros; in_cases H;
      try discriminate; try (injection H as <- <-); eauto.
Qed.

Lemma after_create_in_order_witness :
  In (Job.Logs "j123abc")
     (Job.methodCb true false true
        {| Job.waitfor_reply := Job.Replies (job_in "Running");
           Job.logs_reply := None;
           Job.show_reply := Job.Replies (job_in "Stopped") |}
        (Job.Replies (Some (job_in "Pending"))))
  /\ Job.logs_reply
       {| Job.waitfor_reply := Job.Replies (job_in "Running");
          Job.logs_reply := None;
          Job.show_reply := Job.Replies (job_in "Stopped") |} = None.
Proof.
  refine (proj1 (proj2 (proj2 (proj2
            (after_create_in_order
               true false true
               {| Job.waitfor_reply := Job.Replies (job_in "Running");
                  Job.logs_reply := None;
                  Job.show_reply := Job.Replies (job_in "Stopped") |}
               (Job.Replies (Some (job_in "Pending"))))))) "j123abc" _).
  simpl. auto 20.
Defined.

(** X21.  When tailing, the callback is never called in exactly these
    cases: the remote call returned no job (a [TypeError] is raised), the
    job has no id, the job waited for has no state, or, the logs having come
    without error, the job shown has no state.  In every other case, and
    always when not tailing, the callback is called. *)
Theorem callback_dropped_when (cli json tail : bool) (s : Job.server)
        (res : option Job.job) :
  let trace := Job.methodCb cli json tail s (Job.Replies res) in
  ((cli && negb json && tail)%bool = true ->
   (forall err r, ~ In (Job.Done err r) trace) <-> never_answered s res)
  /\ ((cli && negb json && tail)%bool = false ->
      In (Job.Done None res) trace).
Proof.
  cbv zeta. unfold Job.methodCb, Job.maybeTailLogs. split; intros Ht; rewrite Ht.
  - unfold never_answered. destruct res as [r|].
    2:{ split; [auto|]. intros _ err r H. in_cases H; discriminate. }
    destruct (Job.job_id r) as [| |jobId] eqn:Eid.
    1,2: (split; [intros _; left; reflexivity|];
          intros _ err x H; in_cases H; discriminate).
    cbn [Job.truthy_field].
    destruct (String.eqb jobId EmptyString) eqn:Ee.
    { split; [intros _; left; reflexivity|].
      intros _ err x H. in_cases H; discriminate. }
    cbn [negb].
    assert (Hsay : forall r0 err x,
               ~ In (Job.Done err x) (Job.say_error r0)).
    { intros r0 err x H. unfold Job.say_error in H. in_cases H; discriminate. }
    unfold Job.waitforCb.
    destruct (Job.waitfor_reply s) as [e|r2].
    { split.
      - intros H. exfalso. apply (H (Some e) None).
        right. right. right. apply in_or_app. right. right. now left.
      - intros [H|[]]. discriminate. }
    destruct (Job.truthy_field (Job.job_state r2)) eqn:E2; cbn [negb].
    2:{ split; [auto|]. intros _ err x H. in_cases H; discriminate. }
    assert (Hlive : negb (live r2)
                    = (negb (Job.is_text (Job.job_state r2) "Stopped")
                       && negb (Job.is_text (Job.job_state r2) "Failed")
                       && negb (Job.is_text (Job.job_state r2) "Running"))%bool).
    { unfold live. now rewrite !negb_orb. }
    rewrite <- Hlive. destruct (live r2) eqn:El; cbn [negb].
    2:{ split.
        - intros H. exfalso. apply (H None None).
          right. right. right. apply in_or_app. right. right. right.
          apply in_or_app. right. now left.
        - intros [H|[H|[H _]]]; discriminate. }
    unfold Job.logsCb. destruct (Job.logs_reply s) as [e|].
    { split.
      - intros H. exfalso. apply (H (Some e) None).
        right. right. right. apply in_or_app. right. right. right. right.
        right. now left.
      - intros [H|[H|(_ & H & _)]]; discriminate. }
    unfold Job.showCb. destruct (Job.show_reply s) as [e|r3].
    { split.
      - intros H. exfalso. apply (H (Some e) None).
        right. right. right. apply in_or_app. right. right. right. right.
        right. right. now left.
      - intros [H|[H|(_ & _ & [])]]; discriminate. }
    destruct (Job.truthy_field (Job.job_state r3)) eqn:E3; cbn [negb].
    + split.
      * intros H. exfalso. apply (H None None).
        right. right. right. apply in_or_app. right. right. right. right.
        right. right. right. apply in_or_app. right. now left.
      * intros [H|[H|(_ & _ & H)]]; discriminate.
    + split; [auto 6|]. intros _ err x H. in_cases H; discriminate.
  - apply in_or_app. right. now left.
Qed.

Lemma callback_dropped_when_witness :
  ~ In (Job.Done None None)
       (Job.methodCb true false true
          {| Job.waitfor_reply := Job.Fails (Error "x");
             Job.logs_reply := None;
             Job.show_reply := Job.Fails (Error "x") |}
          (Job.Replies
             (Some {| Job.job_id := Job.Null; Job.job_state := Job.Has "Pending";
                      Job.job_project := Job.Has "demo";
                      Job.jobError := Job.Null; Job.exitCode := Job.Null |}))).
Proof.
  apply (proj2 (proj1 (callback_dropped_when true false true _ _) eq_refl)).
  left. reflexivity.
Defined.
